(** * Black Eagle Arrows inventory scraper: the discovery engine

    A shallow embedding of the crawl / enumerate / probe core of the
    scraper ([utils/playwright_utils.py], [utils/data_manipulation_utils.py]
    and the single-file variant [scraper.py]) together with the properties
    of it that the design document talks about.

    Python integers are unbounded, so they are [Z]; [//] is [Z.div] and
    [%] is [Z.modulo] (both floor, as in Python).  Tuples produced by
    [itertools.product] are lists.  Sets of URLs are [gset string].

    Coroutines are functions in a state-and-exception monad.  Everything
    Playwright does for the scraper is behind the interface [PageAgent];
    a call into it may change the browser and may fail with an exception.
    The two [while True] loops take a number of rounds they may use
    ("fuel").  Logging is left out, as are [set_default_timeout] and the
    report and spreadsheet writers; writing a pickle or the CSV file
    always succeeds.

    The helpers that clean file names, rename columns and prepare the
    report data are embedded as pure functions; there a [string] stands
    for a Python [str] of code points below 256, and a record is a finite
    map from column names to strings, integers and [None].

    The file has two parts: the embedding (up to the simulated site), and
    the properties proved of it. *)

From stdpp Require Import base list strings gmap pretty.
From Stdlib Require Import ZArith Lia Ascii.

Local Open Scope Z_scope.

(* [set_solver] clears hypotheses by name; the note it prints when one is
   already gone is of no interest here. *)
#[global] Set Warnings "-clear-no-such-hyp".

(* ===================================================================== *)
(** * Variant enumeration ([utils/data_manipulation_utils.py])            *)
(* ===================================================================== *)

Module Combinations.
Section product.
Context {A : Type}.

(** One round of [itertools.product]:
    [result = [x+[y] for x in result for y in pool]]. *)
Definition product_round (result : list (list A)) (pool : list A)
  : list (list A) :=
  x ← result; y ← pool; [x ++ [y]].

(** [itertools.product] over the pools: start from [[[]]] and run one
    round per pool, left to right. *)
Definition product (pools : list (list A)) : list (list A) :=
  foldl product_round [[]] pools.

(** [get_all_combinations] is [list] of [product] of its argument lists. *)
Definition get_all_combinations (lists : list (list A)) : list (list A) :=
  product lists.

(** The enumeration as the design document words it: nested iteration
    over the axes in axis order, so that the last axis varies fastest. *)
Fixpoint nested_iteration (axes : list (list A)) : list (list A) :=
  match axes with
  | [] => [[]]
  | axis :: rest => v ← axis; c ← nested_iteration rest; [v :: c]
  end.

(** Π kᵢ for option lists of sizes k₁ … kₙ. *)
Definition axes_product (axes : list (list A)) : nat :=
  foldr (λ axis n, (length axis * n)%nat) 1%nat axes.

(** Position [i] of [c] is one of the options of axis [i]. *)
Definition drawn_from (c : list A) (axes : list (list A)) : Prop :=
  Forall2 (λ v axis, v ∈ axis) c axes.

End product.
End Combinations.

(* ===================================================================== *)
(** * Exceptions, outcomes and the effect monad                           *)
(* ===================================================================== *)

(** The exception classes that occur in the scraper.  All of them derive
    from [Exception]; Playwright's [TimeoutError] is the only one the
    handlers single out, next to [KeyError] and [NotImplementedError]. *)
Inductive exn : Type :=
  | TimeoutError          (* playwright.async_api.TimeoutError *)
  | PlaywrightError       (* playwright.async_api.Error, not a timeout *)
  | KeyError
  | AttributeError
  | ValueError
  | NotImplementedError
  | OSError.

Global Instance exn_eq_dec : EqDecision exn.
Proof. solve_decision. Defined.

(** What a call into the browser gives back. *)
Inductive reply (A : Type) : Type :=
  | Ok (a : A)
  | Fails (e : exn).
Global Arguments Ok {A} a.
Global Arguments Fails {A} e.

(** What running a piece of the program gives back.  [OutOfFuel] is not a
    Python outcome: it marks a run of a [while True] loop that the given
    number of iterations did not finish. *)
Inductive outcome (A : Type) : Type :=
  | Return (a : A)
  | Raise (e : exn)
  | OutOfFuel.
Global Arguments Return {A} a.
Global Arguments Raise {A} e.
Global Arguments OutOfFuel {A}.

Module Eff.
Section monad.
Context {S : Type}.

(** State passing with exceptions: the state reached when an exception
    is raised is kept, as Python keeps every mutation made so far. *)
Definition M (A : Type) : Type := S → outcome A * S.

Definition ret {A} (a : A) : M A := λ s, (Return a, s).
Definition raise {A} (e : exn) : M A := λ s, (Raise e, s).
Definition out_of_fuel {A} : M A := λ s, (OutOfFuel, s).

Definition bind {A B} (m : M A) (k : A → M B) : M B :=
  λ s, match m s with
       | (Return a, s') => k a s'
       | (Raise e, s') => (Raise e, s')
       | (OutOfFuel, s') => (OutOfFuel, s')
       end.

Definition get : M S := λ s, (Return s, s).
Definition modify (f : S → S) : M unit := λ s, (Return tt, f s).

(** [await op]: a call into the browser; a failure is raised. *)
Definition await {A} (op : S → reply A * S) : M A :=
  λ s, match op s with
       | (Ok a, s') => (Return a, s')
       | (Fails e, s') => (Raise e, s')
       end.

(** [try: body  except ...: handler]; [handler e = None] when no
    [except] clause matches [e]. *)
Definition try_except {A} (body : M A) (handler : exn → option (M A)) : M A :=
  λ s, match body s with
       | (Raise e, s') =>
           match handler e with
           | Some h => h s'
           | None => (Raise e, s')
           end
       | r => r
       end.

(** [try: body  finally: cleanup]: the cleanup runs after the body
    whatever its outcome, and an exception of the cleanup replaces it. *)
Definition try_finally {A} (body : M A) (cleanup : M unit) : M A :=
  λ s, match body s with
       | (OutOfFuel, s') => (OutOfFuel, s')
       | (o, s') =>
           match cleanup s' with
           | (Return _, s'') => (o, s'')
           | (Raise e, s'') => (Raise e, s'')
           | (OutOfFuel, s'') => (OutOfFuel, s'')
           end
       end.

(** [for x in xs: body x]. *)
Fixpoint for_each {X} (xs : list X) (body : X → M unit) : M unit :=
  match xs with
  | [] => ret tt
  | x :: xs' => bind (body x) (λ _, for_each xs' body)
  end.

(** [[f x for x in xs]] with an effectful [f]. *)
Fixpoint map_each {X Y} (xs : list X) (f : X → M Y) : M (list Y) :=
  match xs with
  | [] => ret []
  | x :: xs' => bind (f x) (λ y, bind (map_each xs' f) (λ ys, ret (y :: ys)))
  end.

(** Three ways to say what a computation cannot do: leave the relation
    [R] between the state it starts in and the state it ends in, let an
    exception escape, run out of fuel. *)
Definition respects (R : relation S) {A} (m : M A) : Prop :=
  ∀ s, R s (m s).2.
Definition no_raise {A} (m : M A) : Prop :=
  ∀ s e, (m s).1 ≠ Raise e.
Definition finishes {A} (m : M A) : Prop :=
  ∀ s, (m s).1 ≠ OutOfFuel.

End monad.
Global Arguments M : clear implicits.

(** A fuelled computation that no amount of fuel brings to an end. *)
Definition diverges {S A} (m : nat → M S A) (s : S) : Prop :=
  ∀ fuel, (m fuel s).1 = OutOfFuel.

(** Run a computation on one component of a larger state. *)
Definition zoom {S T A} (proj : T → S) (inj : S → T → T) (m : M S A) : M T A :=
  λ t, let '(o, s') := m (proj t) in (o, inj s' t).

End Eff.
Import Eff.

Notation "x <- m ;; k" := (bind m (λ x, k))
  (at level 100, m at next level, right associativity,
   format "'[v' x  <-  m  ;;  '/' k ']'").
Notation "m ;; k" := (bind m (λ _, k))
  (at level 100, right associativity,
   format "'[v' m  ;;  '/' k ']'").

(* ===================================================================== *)
(** * Strings as the scraper reads them                                   *)
(* ===================================================================== *)

Module Text.

(** [needle in hay]. *)
Fixpoint contains (needle hay : string) : bool :=
  String.prefix needle hay
  || match hay with
     | EmptyString => false
     | String _ hay' => contains needle hay'
     end.

(** [s.split(':')[0]]. *)
Fixpoint before_colon (s : string) : string :=
  match s with
  | EmptyString => EmptyString
  | String c s' =>
      if Ascii.eqb c ":"%char then EmptyString else String c (before_colon s')
  end.

Definition is_digit (c : ascii) : bool :=
  let n := nat_of_ascii c in (48 <=? n)%nat && (n <=? 57)%nat.

Definition flush (run : string) : list string :=
  match run with EmptyString => [] | _ => [run] end.

(** [re.findall(r'\d+', s)]: the maximal runs of decimal digits of [s],
    left to right; [run] is the run being read.  Only ASCII digits are
    modelled. *)
Fixpoint findall_digits (run : string) (s : string) : list string :=
  match s with
  | EmptyString => flush run
  | String c s' =>
      if is_digit c then findall_digits (run +:+ String c EmptyString) s'
      else flush run ++ findall_digits EmptyString s'
  end.

Definition digit_value (c : ascii) : Z := Z.of_nat (nat_of_ascii c) - 48.

Fixpoint int_from (acc : Z) (s : string) : Z :=
  match s with
  | EmptyString => acc
  | String c s' => int_from (10 * acc + digit_value c) s'
  end.

Fixpoint all_digits (s : string) : bool :=
  match s with
  | EmptyString => true
  | String c s' => is_digit c && all_digits s'
  end.


(** [int(s)] for a string of decimal digits; anything else is a
    [ValueError] here. *)
Definition int {S} (s : string) : M S Z :=
  match s with
  | EmptyString => raise ValueError
  | _ => if all_digits s then ret (int_from 0 s) else raise ValueError
  end.

(** [max(xs)] of a list of integers; [ValueError] on the empty list. *)
Definition max {S} (xs : list Z) : M S Z :=
  match xs with
  | [] => raise ValueError
  | x :: xs' => ret (foldl Z.max x xs')
  end.

End Text.

(* ===================================================================== *)
(** * File names, columns and the report data
      ([utils/data_manipulation_utils.py])                                *)
(* ===================================================================== *)

Module DataManipulation.

(** White space as [\s] and [str.strip] see it, among the code points
    below 256 (a [string] here is a Python [str] of such code points, one
    character each): tab to carriage return, the four separators 28-31,
    the space, NEL and the no-break space. *)
Definition is_space (c : ascii) : bool :=
  let n := nat_of_ascii c in
  ((9 <=? n) && (n <=? 13) || (28 <=? n) && (n <=? 32)
   || (n =? 133) || (n =? 160))%nat.

(** [s.replace(old, ' ')] for a one-character [old]. *)
Fixpoint replace_char (old : ascii) (s : string) : string :=
  match s with
  | EmptyString => EmptyString
  | String c s' =>
      String (if Ascii.eqb c old then " "%char else c) (replace_char old s')
  end.

(** [sub(r'\s+', ' ', s)]: every maximal run of white space becomes one
    space; [in_run] says that the character before was white space. *)
Fixpoint sub_spaces_from (in_run : bool) (s : string) : string :=
  match s with
  | EmptyString => EmptyString
  | String c s' =>
      if is_space c
      then if in_run then sub_spaces_from true s'
           else String " " (sub_spaces_from true s')
      else String c (sub_spaces_from false s')
  end.

Definition sub_spaces (s : string) : string := sub_spaces_from false s.

Fixpoint lstrip (s : string) : string :=
  match s with
  | EmptyString => EmptyString
  | String c s' => if is_space c then lstrip s' else s
  end.

Fixpoint rstrip (s : string) : string :=
  match s with
  | EmptyString => EmptyString
  | String c s' =>
      match rstrip s' with
      | EmptyString => if is_space c then EmptyString else String c EmptyString
      | r => String c r
      end
  end.

(** [s.strip()]. *)
Definition strip (s : string) : string := rstrip (lstrip s).

(** [name_cleaning_list]: the slash and the double quote (code 34). *)
Definition name_cleaning_list : list ascii := ["/"; "034"]%char.

(** [clean_file_name]; [None] is a product page without a heading, which
    [if not name] treats like the empty name. *)
Definition clean_file_name (name : option string) : string :=
  match name with
  | None | Some EmptyString => "unnamed_product.html"
  | Some name =>
      let name := foldl (λ name element, replace_char element name)
                        name name_cleaning_list in
      let cleaned_name := strip (sub_spaces name) in
      cleaned_name +:+ ".html"
  end.

(** The characters a cleaned name keeps: everything but white space and
    the characters of [name_cleaning_list]. *)
Definition is_name_char (c : ascii) : bool :=
  negb (is_space c) && forallb (λ element, negb (Ascii.eqb c element)) name_cleaning_list.

Definition name_chars (s : string) : list ascii :=
  filter (λ c, is_name_char c = true) (String.list_ascii_of_string s).

(** White space in [s] is single spaces only; after a white-space
    character ([after_space]) [s] does not start with another one. *)
Fixpoint squeezed (after_space : bool) (s : string) : bool :=
  match s with
  | EmptyString => true
  | String c s' =>
      if is_space c
      then negb after_space && Ascii.eqb c " " && squeezed true s'
      else squeezed false s'
  end.

(** What a record holds under a key: the strings and integers that
    [get_product_item] and [inventory_identifier] store, and [None]. *)
Inductive value : Type :=
  | VStr (s : string)
  | VInt (n : Z)
  | VNone.

Global Instance value_eq_dec : EqDecision value.
Proof. solve_decision. Defined.

(** One [old_key, new_key] round of [rename_columns] on [new_item]. *)
Definition rename_column (new_item : gmap string value) (col : string * string)
  : gmap string value :=
  let '(old_key, new_key) := col in
  match new_item !! old_key with
  | Some popped => <[new_key := popped]> (delete old_key new_item)
  | None => <[new_key := VStr ""]> new_item
  end.

(** [rename_columns(data_container, **cols)]; [cols] in keyword order. *)
Definition rename_columns (data_container : list (gmap string value))
    (cols : list (string * string)) : list (gmap string value) :=
  (λ item, foldl rename_column item cols) <$> data_container.

Definition column_mapping : list (string * string) :=
  [ ("1DroplistDesc", "DroplistDesc1"); ("1DroplistValue", "DroplistValue1");
    ("2DroplistDesc", "DroplistDesc2"); ("2DroplistValue", "DroplistValue2");
    ("3DroplistDesc", "DroplistDesc3"); ("3DroplistValue", "DroplistValue3");
    ("4DroplistDesc", "DroplistDesc4"); ("4DroplistValue", "DroplistValue4") ].

(** [product_item.get('Current stock', 0)]. *)
Definition current_stock (product_item : gmap string value) : value :=
  default (VInt 0) (product_item !! "Current stock").

(** [x == n] and [x > n] for an integer [n]: a string or [None] is not
    equal to a number, and comparing it with one by [>] is a [TypeError]
    ([None] as the result here). *)
Definition eq_int (x : value) (n : Z) : bool :=
  match x with VInt m => m =? n | _ => false end.
Definition gt_int (x : value) (n : Z) : option bool :=
  match x with VInt m => Some (n <? m) | _ => None end.

(** [[x for x in xs if test(x)]] with a test that may raise. *)
Fixpoint filter_by (test : gmap string value → option bool)
    (xs : list (gmap string value)) : option (list (gmap string value)) :=
  match xs with
  | [] => Some []
  | x :: xs' =>
      keep ← test x;
      rest ← filter_by test xs';
      Some (if keep : bool then x :: rest else rest)
  end.

Record summary : Type := Summary {
  total_products : nat;
  out_of_stock_count : nat;
  in_stock_count : nat;
  low_stock_count : nat;
  well_stocked_count : nat;
}.

Record standard_data : Type := StandardData {
  out_of_stocks_products : list (gmap string value);
  in_stocks_products : list (gmap string value);
  more_5_stocks_products : list (gmap string value);
  only_1_stocks_products : list (gmap string value);
  summary_of : option summary;        (* the ['summary'] key, when there is one *)
}.

(** [standardize_data]; [None] is a [TypeError] that escapes. *)
Definition standardize_data (data : list (gmap string value))
  : option standard_data :=
  match data with
  | [] => Some (StandardData [] [] [] [] None)
  | _ =>
      let out_of_stock :=
        filter (λ product_item, eq_int (current_stock product_item) 0 = true) data in
      in_stock ← filter_by (λ product_item, gt_int (current_stock product_item) 0) data;
      more_than_5_stock ←
        filter_by (λ product_item, gt_int (current_stock product_item) 5) data;
      let only_1_stock :=
        filter (λ product_item, eq_int (current_stock product_item) 1 = true) data in
      Some (StandardData
              (rename_columns out_of_stock column_mapping)
              (rename_columns in_stock column_mapping)
              (rename_columns more_than_5_stock column_mapping)
              (rename_columns only_1_stock column_mapping)
              (Some (Summary (length data) (length out_of_stock) (length in_stock)
                             (length only_1_stock) (length more_than_5_stock))))
  end.

(** A value that is an integer. *)
Definition is_int (x : value) : Prop := ∃ n, x = VInt n.

(** How many records have a stock equal to, or greater than, [n]. *)
Definition count_eq (n : Z) (data : list (gmap string value)) : nat :=
  length (filter (λ product_item, eq_int (current_stock product_item) n = true) data).
Definition count_gt (n : Z) (data : list (gmap string value)) : nat :=
  length (filter (λ product_item, gt_int (current_stock product_item) n = Some true) data).

(** A record as [inventory_identifier] leaves it, with one select. *)
Definition rampage_record : gmap string value :=
  <["product_name" := VStr "Rampage"]>
    (<["1DroplistDesc" := VStr "Size"]>
       (<["1DroplistValue" := VStr "M"]>
          (<["Current stock" := VInt 6]> (<["Previous stock" := VInt 0]> ∅)))).

End DataManipulation.

(* ===================================================================== *)
(** * The same helpers as [scraper.py] has them                           *)
(* ===================================================================== *)

Module ScraperData.
Import DataManipulation.

Definition NAME_CLEANING_LIST : list ascii := ["/"; "034"]%char.

(** [clean_file_name] of [scraper.py]: no test for an empty name and no
    [strip]; [None] has no [replace], which is an [AttributeError]. *)
Definition clean_file_name (name : option string) : reply string :=
  match name with
  | None => Fails AttributeError
  | Some name =>
      let name := foldl (λ name element, replace_char element name)
                        name NAME_CLEANING_LIST in
      Ok (sub_spaces name +:+ ".html")
  end.

(** One [old_name, new_name] round of [rename_columns] of [scraper.py]:
    a missing column is left missing. *)
Definition rename_column (item : gmap string value) (col : string * string)
  : gmap string value :=
  let '(old_name, new_name) := col in
  match item !! old_name with
  | Some popped => <[new_name := popped]> (delete old_name item)
  | None => item
  end.

(** [rename_columns] of [scraper.py].  It changes the dictionaries it is
    given and returns the list it was given; the value returned is what
    is modelled. *)
Definition rename_columns (data_container : list (gmap string value))
    (cols : list (string * string)) : list (gmap string value) :=
  (λ item, foldl rename_column item cols) <$> data_container.

(** The keyword arguments of the call in [update_output]. *)
Definition update_output_columns : list (string * string) :=
  [ ("product_name", "Product Name");
    ("Current_stock", "Current Stock");
    ("Previous_stock", "Previous Stock") ].

(** [sub(r'<[^>]+>', '', s)]: every [<] that is followed by at least one
    character other than [>] and then by a [>] is removed together with
    everything up to that [>].  [tag] holds what was read since a [<]
    that may still turn out to open a tag. *)
Fixpoint strip_tags_from (tag : option string) (s : string) : string :=
  match s with
  | EmptyString => default EmptyString tag          (* never closed: no tag *)
  | String c s' =>
      match tag with
      | None =>
          if Ascii.eqb c "<" then strip_tags_from (Some "<") s'
          else String c (strip_tags_from None s')
      | Some read =>
          if Ascii.eqb c ">" then
            match read with
            | String _ EmptyString =>               (* [<>] is no tag *)
                read +:+ String c (strip_tags_from None s')
            | _ => strip_tags_from None s'
            end
          else strip_tags_from (Some (read +:+ String c EmptyString)) s'
      end
  end.

Definition strip_tags (s : string) : string := strip_tags_from None s.

(** [reshape_description]; [None] is the [TypeError] of [sub] on a
    number. *)
Definition reshape_description (product_item : gmap string value) : option value :=
  let description := default (VStr "") (product_item !! "Description") in
  match description with
  | VStr EmptyString => Some description
  | VStr text => Some (VStr (strip (sub_spaces (strip_tags text))))
  | VNone => Some description
  | VInt n => if n =? 0 then Some description else None
  end.

Definition starts_with (c : ascii) (s : string) : bool :=
  match s with
  | String d _ => Ascii.eqb d c
  | EmptyString => false
  end.

(** No [<] of [s] opens a tag: each is followed at once by [>], or by no
    [>] at all. *)
Fixpoint tag_free (s : string) : bool :=
  match s with
  | EmptyString => true
  | String c s' =>
      (negb (Ascii.eqb c "<")
       || starts_with ">" s' || negb (Text.contains ">" s'))
      && tag_free s'
  end.

End ScraperData.

(* ===================================================================== *)
(** * Scraped records and the browser interface                           *)
(* ===================================================================== *)

(** One row of [data]: the dictionary built by [get_product_item].  The
    eight [iDroplistDesc] / [iDroplistValue] keys are kept as the list
    [droplist] of (description, value) pairs, pair [i] holding keys
    [i+1]. *)
Record item : Type := Item {
  SKU : string;
  Brand : string;
  product_name : option string;      (* [.get()] may give [None] *)
  URL : string;
  droplist : list (string * string);
  Price : string;
  Current_stock : Z;
  Current_stock_date : string;
  Previous_stock : Z;
  Previous_stock_date : string;
  Description_path : string;
  Description : string;
  Item_photo_URL : option string;
}.

Definition set_Current_stock (q : Z) (it : item) : item :=
  Item (SKU it) (Brand it) (product_name it) (URL it) (droplist it) (Price it)
       q (Current_stock_date it) (Previous_stock it) (Previous_stock_date it)
       (Description_path it) (Description it) (Item_photo_URL it).

(** [variation_item[f'{i+1}DroplistDesc'] = ...] and [...Value] for every
    pair of [pairs]: the first [length pairs] slots are overwritten, slots
    beyond the existing ones are added. *)
Definition set_droplists (pairs : list (string * string)) (it : item) : item :=
  Item (SKU it) (Brand it) (product_name it) (URL it)
       (pairs ++ drop (length pairs) (droplist it)) (Price it)
       (Current_stock it) (Current_stock_date it) (Previous_stock it)
       (Previous_stock_date it) (Description_path it) (Description it)
       (Item_photo_URL it).

(** [d = deepcopy(old); d.update(new)] where [new] comes from
    [get_product_item] and so carries every key of the record. *)
Definition dict_update (old new : item) : item := new.

(** A [select] element of the page ([ElementHandle]). *)
Definition handle : Type := nat.

(** The JSON object answered by [/remote/v1/cart/add], as far as the
    scraper looks into it. *)
Inductive cart_response : Type :=
  | NoDataKey                 (* no ['data'] key *)
  | DataNotDict               (* ['data'] has no [.get] *)
  | Data (error : bool).      (* truthiness of [data.get('error')] *)

(** The browser as the scraper drives it: every field is one awaited
    Playwright interaction (with the selector it is used with), acting on
    the browser-and-site state [P].  Each may fail with an exception. *)
Class PageAgent (P : Type) : Type := {
  (* contexts and navigation *)
  launch : bool → P → reply unit * P;
  browser_close : P → reply unit * P;
  new_context : P → reply unit * P;
  new_page : P → reply unit * P;
  goto : string → P → reply unit * P;
  page_url : P → string;
  page_close : P → reply unit * P;
  context_close : P → reply unit * P;
  wait_for_timeout : Z → P → reply unit * P;
  (* listing pages *)
  pagination_anchors : P → reply (list string) * P;
  card_links : P → reply (list string) * P;
  (* product pages *)
  popup_button : P → reply bool * P;
  click_popup_button : P → reply unit * P;
  product_item : P → reply item * P;
  unavailable_button : P → reply bool * P;
  attribute_selects : P → reply (list handle) * P;
  option_values : handle → P → reply (list (option string)) * P;
  select_option : handle → string → P → reply unit * P;
  select_label : handle → P → reply string * P;
  availability_text : P → reply (option string) * P;
  (* the cart *)
  fill_qty : Z → P → reply unit * P;
  click_add_to_cart : P → reply unit * P;
  reload : P → reply unit * P;
  cart_add_response : P → reply cart_response * P;
  click_confirm : P → reply unit * P;
  click_modal_close : P → reply unit * P;
}.

(** When a task coroutine is entered and left, and what a listing page
    contributed; kept only to state in which order tasks run and where the
    product URLs come from. *)
Inductive task_kind : Type := Listing | Product.
Inductive event : Type :=
  | Started (k : task_kind) (url : string)
  | Finished (k : task_kind) (url : string)
  | Found (new_urls : list string).     (* a listing page gave these URLs *)

(** Everything a run works on: the browser, the shared containers
    [data] and [failed_urls], and the files it writes ([None]: the file
    does not exist).  Writing a file always succeeds here. *)
Record world (P : Type) : Type := World {
  browser : P;
  data : list item;
  failed_urls : gset string;
  products_urls_pkl : option (gset string);
  failed_urls_pkl : option (gset string);
  data_pkl : option (list item);
  output_csv : option (list item);
  trace : list event;
}.
Global Arguments World {P}.
Global Arguments browser {P}.
Global Arguments data {P}.
Global Arguments failed_urls {P}.
Global Arguments products_urls_pkl {P}.
Global Arguments failed_urls_pkl {P}.
Global Arguments data_pkl {P}.
Global Arguments output_csv {P}.
Global Arguments trace {P}.

Section world_updates.
Context {P : Type}.
Implicit Type w : world P.

Definition set_browser (p : P) w : world P :=
  World p (data w) (failed_urls w) (products_urls_pkl w) (failed_urls_pkl w)
        (data_pkl w) (output_csv w) (trace w).
Definition set_data (d : list item) w : world P :=
  World (browser w) d (failed_urls w) (products_urls_pkl w) (failed_urls_pkl w)
        (data_pkl w) (output_csv w) (trace w).
Definition set_failed_urls (f : gset string) w : world P :=
  World (browser w) (data w) f (products_urls_pkl w) (failed_urls_pkl w)
        (data_pkl w) (output_csv w) (trace w).
Definition set_products_urls_pkl (f : option (gset string)) w : world P :=
  World (browser w) (data w) (failed_urls w) f (failed_urls_pkl w)
        (data_pkl w) (output_csv w) (trace w).
Definition set_failed_urls_pkl (f : option (gset string)) w : world P :=
  World (browser w) (data w) (failed_urls w) (products_urls_pkl w) f
        (data_pkl w) (output_csv w) (trace w).
Definition set_data_pkl (f : option (list item)) w : world P :=
  World (browser w) (data w) (failed_urls w) (products_urls_pkl w)
        (failed_urls_pkl w) f (output_csv w) (trace w).
Definition set_output_csv (f : option (list item)) w : world P :=
  World (browser w) (data w) (failed_urls w) (products_urls_pkl w)
        (failed_urls_pkl w) (data_pkl w) f (trace w).
Definition set_trace (t : list event) w : world P :=
  World (browser w) (data w) (failed_urls w) (products_urls_pkl w)
        (failed_urls_pkl w) (data_pkl w) (output_csv w) t.

(** A page-level coroutine run inside a task. *)
Definition on_page {A} (m : M P A) : M (world P) A :=
  zoom browser set_browser m.

Definition record (e : event) : M (world P) unit :=
  modify (λ w, set_trace (trace w ++ [e]) w).

End world_updates.

(** Reading the trace. *)
Definition is_listing_event (e : event) : Prop :=
  match e with
  | Started Listing _ | Finished Listing _ | Found _ => True
  | _ => False
  end.
Definition is_found (e : event) : Prop :=
  match e with Found _ => True | _ => False end.

(** The URLs the listing pages of a trace contributed. *)
Definition found_urls (t : list event) : gset string :=
  ⋃ ((λ e, match e with Found new_urls => list_to_set new_urls | _ => ∅ end) <$> t).

(* ===================================================================== *)
(** * [utils/playwright_utils.py]                                         *)
(* ===================================================================== *)

Module PlaywrightUtils.
Import Combinations.

Definition listing_urls : list string :=
  [ "https://blackeaglearrows.com/bow-accessories/";
    "https://blackeaglearrows.com/arrows/";
    "https://blackeaglearrows.com/components/";
    "https://blackeaglearrows.com/gear/" ]%string.

(** [attrs_values_dict[attr] = values] on an insertion-ordered dict. *)
Fixpoint dict_set (d : list (handle * list string)) (k : handle) (v : list string)
  : list (handle * list string) :=
  match d with
  | [] => [(k, v)]
  | (k', v') :: d' =>
      if decide (k' = k) then (k', v) :: d' else (k', v') :: dict_set d' k v
  end.

(** Truthiness of an attribute value in [if value:]. *)
Definition truthy (value : option string) : option string :=
  match value with
  | Some EmptyString => None
  | v => v
  end.

(** [selector.xpath(...).re(r'\d+')] over the serialised pagination
    anchors selected by the XPath. *)
Definition pagination_numbers (anchors : list string) : list string :=
  a ← anchors; Text.findall_digits EmptyString a.

(** The list comprehension of [check_handled_url]:
    [[item['product_name'] == page.url for item in data]]. *)
Definition handled_flags (url : string) (data : list item) : list bool :=
  (λ item, bool_decide (product_name item = Some url)) <$> data.

(** The count the design document takes [check_handled_url] to compare
    against: how many stored records match the page. *)
Definition count_of_matches (url : string) (data : list item) : nat :=
  length (filter (λ b, b = true) (handled_flags url data)).

Section with_agent.
Context {P : Type} `{PageAgent P}.

Definition handle_help_us_stay_connected_popup : M P unit :=
  present <- await popup_button ;;
  if present : bool then await click_popup_button else ret tt.

Definition get_attr_values (attr_handle : handle) : M P (list string) :=
  options <- await (option_values attr_handle) ;;
  ret (omap truthy options).

Fixpoint get_options_dict_from (attrs : list handle)
    (attrs_values_dict : list (handle * list string))
  : M P (list (handle * list string)) :=
  match attrs with
  | [] => ret attrs_values_dict
  | attr :: attrs' =>
      values <- get_attr_values attr ;;
      get_options_dict_from attrs' (dict_set attrs_values_dict attr values)
  end.

Definition get_options_dict : M P (list (handle * list string)) :=
  attrs <- await attribute_selects ;;
  get_options_dict_from attrs [].

Definition check_handled_url (data : list item) : M P bool :=
  attrs_dict <- get_options_dict ;;
  let all_combinations := get_all_combinations (attrs_dict.*2) in
  p <- get ;;
  ret (length all_combinations =? length (handled_flags (page_url p) data))%nat.

Definition get_total_pages : M P Z :=
  anchors <- await pagination_anchors ;;
  try_except
    (let pagination_numbers := pagination_numbers anchors in
     match pagination_numbers with
     | [] => ret 1
     | _ => numbers <- map_each pagination_numbers Text.int ;; Text.max numbers
     end)
    (λ e, match e with ValueError => Some (ret 1) | _ => None end).

Definition get_page_products_urls : M P (list string) := await card_links.

Definition get_product_item : M P item := await product_item.

Definition select_attr_option (option_handle : handle) (attr_value : string)
  : M P unit :=
  await (select_option option_handle attr_value).

(** The click loop of [try_inventory_quantity]; [count] is its counter. *)
Fixpoint click_add_to_cart_until_done (fuel : nat) (count : Z) : M P unit :=
  match fuel with
  | O => out_of_fuel
  | S fuel' =>
      try_except (await click_add_to_cart)
        (λ e, match e with
              | TimeoutError =>
                  Some (let count := count + 1 in
                        if count mod 5 =? 0
                        then await reload ;; click_add_to_cart_until_done fuel' count
                        else click_add_to_cart_until_done fuel' count)
              | _ => None
              end)
  end.

(** The body of the outer [try] of [try_inventory_quantity]. *)
Definition cart_interaction (fuel : nat) (check_value : Z) : M P bool :=
  await (fill_qty check_value) ;;
  click_add_to_cart_until_done fuel 0 ;;
  response_obj <- await cart_add_response ;;
  try_except
    (match response_obj with
     | NoDataKey => raise KeyError
     | DataNotDict => raise AttributeError
     | Data error =>
         if error
         then await click_confirm ;; ret false
         else await click_modal_close ;; ret true
     end)
    (λ e, match e with KeyError => Some (ret true) | _ => None end).

(** [except Exception as e: logger.error(...); raise TimeoutError]; the
    [return False] after the [raise] is never reached.  The [raise]
    statement is taken to raise the class it names; how Playwright
    constructs its exceptions is not part of the scraper. *)
Definition try_inventory_quantity (fuel : nat) (check_value : Z) : M P bool :=
  try_except (cart_interaction fuel check_value)
             (λ e, Some (raise TimeoutError)).

Definition check_out_of_stock : M P bool :=
  availability <- await availability_text ;;
  match availability with
  | None => ret false
  | Some text => ret (Text.contains "out of Stock" text)
  end.

(** The [while True] loop of [get_inventory_value]. *)
Fixpoint probe_loop (fuel : nat) (inventory try_count check_value : Z) : M P Z :=
  match fuel with
  | O => out_of_fuel
  | S fuel' =>
      let try_count := try_count + 1 in
      let '(check_value, try_count) :=
        if 10 <? try_count then (check_value + 50000, -100000)
        else (check_value, try_count) in
      availability <- try_inventory_quantity fuel' check_value ;;
      let inventory := if availability : bool then inventory + check_value else inventory in
      let check_value := if availability then check_value else check_value `div` 2 in
      if (check_value =? 1) && negb availability
      then ret inventory
      else probe_loop fuel' inventory try_count check_value
  end.

Definition get_inventory_value (fuel : nat) (check_value : Z) : M P Z :=
  out_of_stock <- check_out_of_stock ;;
  if out_of_stock : bool then ret 0 else probe_loop fuel 0 0 check_value.

Definition get_select_desc (h : handle) : M P string :=
  desc <- await (select_label h) ;;
  ret (match desc with EmptyString => EmptyString | _ => Text.before_colon desc end).

Definition select_and_wait (attr_handle : handle) (value : string) : M P unit :=
  select_attr_option attr_handle value ;;
  await (wait_for_timeout 500).

(** The attribute-selection part of the variant loop. *)
Definition select_combination (attrs_dict : list (handle * list string))
    (combination : list string) : M P unit :=
  let attr_handles := attrs_dict.*1 in
  if (1 <? length attr_handles)%nat then
    for_each (zip attr_handles combination)
             (λ hv, select_and_wait hv.1 hv.2)
  else if (length attr_handles =? 1)%nat then
    for_each attrs_dict
             (λ kv, for_each combination (λ value, select_and_wait kv.1 value))
  else ret tt.

(** One round of the variant loop of [inventory_identifier]. *)
Definition probe_variant (fuel : nat) (primary_item : item)
    (attrs_dict : list (handle * list string)) (guessed_initial_value : Z)
    (combination : list string) : M (world P) unit :=
  on_page (select_combination attrs_dict combination) ;;
  fresh <- on_page get_product_item ;;
  let variation_item := dict_update primary_item fresh in
  attr_names <- on_page (map_each (attrs_dict.*1) get_select_desc) ;;
  let variation_item := set_droplists (zip attr_names combination) variation_item in
  inventory_quantity <- on_page (get_inventory_value fuel guessed_initial_value) ;;
  let variation_item := set_Current_stock inventory_quantity variation_item in
  modify (λ w, set_data (data w ++ [variation_item]) w).

Definition inventory_identifier (fuel : nat) (primary_item : item)
    (guessed_initial_value : Z) : M (world P) Z :=
  attrs_dict <- on_page get_options_dict ;;
  match attrs_dict with
  | [] => raise NotImplementedError
  | _ =>
      let all_combinations := get_all_combinations (attrs_dict.*2) in
      for_each all_combinations
               (probe_variant fuel primary_item attrs_dict guessed_initial_value) ;;
      ret (Z.of_nat (length all_combinations))
  end.

Definition guessed_initial_value_default : Z := 100.

(** [failed_urls.add(url)], [pickle.dump(failed_urls, ...)], [export(data)]
    and [pickle.dump(data, ...)]. *)
Definition add_failed_url (url : string) : M (world P) unit :=
  modify (λ w, set_failed_urls ({[url]} ∪ failed_urls w) w).
Definition dump_failed_urls : M (world P) unit :=
  modify (λ w, set_failed_urls_pkl (Some (failed_urls w)) w).
Definition export : M (world P) unit :=
  modify (λ w, set_output_csv (Some (data w)) w).
Definition dump_data : M (world P) unit :=
  modify (λ w, set_data_pkl (Some (data w)) w).

(** The inner [try] of [handle_url] around [inventory_identifier]. *)
Definition identify_or_fail (fuel : nat) (url : string) (primary_item : item)
  : M (world P) unit :=
  try_except
    (inventory_identifier fuel primary_item guessed_initial_value_default ;; ret tt)
    (λ e, match e with
          | TimeoutError | NotImplementedError =>
              Some (add_failed_url url ;; dump_failed_urls)
          | _ => None
          end).

(** The body of the outer [try] of [handle_url]. *)
Definition handle_url_body (fuel : nat) (url : string) : M (world P) unit :=
  on_page (await (goto url)) ;;
  w <- get ;;
  handled <- on_page (check_handled_url (data w)) ;;
  if handled : bool then ret tt
  else
    on_page handle_help_us_stay_connected_popup ;;
    primary_item <- on_page get_product_item ;;
    unavailable <- on_page (await unavailable_button) ;;
    if unavailable : bool
    then modify (λ w, set_data (data w ++ [primary_item]) w)
    else identify_or_fail fuel url primary_item.

Definition handle_url_cleanup : M (world P) unit :=
  export ;;
  dump_data ;;
  on_page (await page_close) ;;
  on_page (await context_close).

(** [handle_url] between the two trace marks: the context and the page
    are opened before the [try], closed in its [finally]. *)
Definition handle_url_task (fuel : nat) (url : string) : M (world P) unit :=
  on_page (await new_context) ;;
  on_page (await new_page) ;;
  try_finally
    (try_except (handle_url_body fuel url) (λ e, Some (add_failed_url url)))
    handle_url_cleanup.

Definition handle_url (fuel : nat) (url : string) : M (world P) unit :=
  record (Started Product url) ;;
  try_finally (handle_url_task fuel url) (record (Finished Product url)).

Definition load_products_urls : M (world P) (gset string) :=
  w <- get ;;
  ret (default ∅ (products_urls_pkl w)).

(** What [products_urls.pkl] holds, the empty set when it does not exist. *)
Definition known_products_urls (w : world P) : gset string :=
  default ∅ (products_urls_pkl w).

(** [products_urls = products_urls.union(new_urls)] and the
    [pickle.dump] after it, for the set that was loaded before. *)
Definition dump_products_urls (products_urls : gset string)
    (new_urls : list string) : M (world P) unit :=
  let products_urls := products_urls ∪ list_to_set new_urls in
  modify (set_products_urls_pkl (Some products_urls)).

(** The merge of one page's URLs into [products_urls.pkl] when no other
    task runs between its load and its dump: load, union, dump. *)
Definition merge_products_urls (new_urls : list string) : M (world P) unit :=
  products_urls <- load_products_urls ;;
  dump_products_urls products_urls new_urls.

(** Two listing tasks in their page loops while both are active, which
    [gather_with_concurrency(2, ...)] in [run] allows.  Between the load
    (line 248) and the dump (lines 250-251) a task awaits the links of its
    page (line 249), and the event loop may run the other task: here both
    tasks have loaded the file before either dumps.  [new_urls_a] and
    [new_urls_b] are what the two awaits return.  The result is what the
    file holds between the two dumps. *)
Definition interleaved_merges (new_urls_a new_urls_b : list string)
  : M (world P) (gset string) :=
  products_urls_a <- load_products_urls ;;
  products_urls_b <- load_products_urls ;;
  dump_products_urls products_urls_a new_urls_a ;;
  persisted <- load_products_urls ;;
  dump_products_urls products_urls_b new_urls_b ;;
  ret persisted.

(** One round of the page loop of [handle_listing]. *)
Definition handle_listing_page (listing_url : string) (page_id : Z)
  : M (world P) unit :=
  on_page (await new_context) ;;
  on_page (await new_page) ;;
  try_finally
    (try_except
       (on_page (await (goto (listing_url +:+ "?page=" +:+ pretty page_id))) ;;
        products_urls <- load_products_urls ;;
        new_urls <- on_page get_page_products_urls ;;
        record (Found new_urls) ;;
        dump_products_urls products_urls new_urls)
       (λ e, Some (ret tt)))
    (on_page (await page_close) ;;
     on_page (await context_close)).

(** [handle_listing] between the two trace marks. *)
Definition handle_listing_task (listing_url : string) : M (world P) unit :=
  on_page (await new_context) ;;
  on_page (await new_page) ;;
  try_finally
    (try_except
       (on_page (await (goto listing_url)) ;;
        total_pages <- on_page get_total_pages ;;
        on_page (await page_close) ;;
        for_each (seqZ 1 total_pages) (handle_listing_page listing_url))
       (λ e, Some (ret tt)))
    (on_page (await context_close)).

Definition handle_listing (listing_url : string) : M (world P) unit :=
  record (Started Listing listing_url) ;;
  try_finally (handle_listing_task listing_url)
              (record (Finished Listing listing_url)).


(** How the trace and [products_urls.pkl] may change together. *)
Definition same_trace (w w' : world P) : Prop := trace w' = trace w.

Definition found_step (w w' : world P) : Prop :=
  ∃ F, trace w' = trace w ++ F
       ∧ Forall is_found F
       ∧ known_products_urls w' = known_products_urls w ∪ found_urls F.

(** Every listing task entered in [L] is also left in [L]. *)
Definition listing_complete (L : list event) : Prop :=
  ∀ url, Started Listing url ∈ L → Finished Listing url ∈ L.

Definition listing_step (w w' : world P) : Prop :=
  ∃ L, trace w' = trace w ++ L
       ∧ Forall is_listing_event L
       ∧ listing_complete L
       ∧ known_products_urls w' = known_products_urls w ∪ found_urls L.

(** Opening and closing contexts and pages never fails. *)
Definition reliable_lifecycle : Prop :=
  (∀ p : P, (new_context p).1 = Ok tt)
  ∧ (∀ p : P, (new_page p).1 = Ok tt)
  ∧ (∀ p : P, (page_close p).1 = Ok tt)
  ∧ (∀ p : P, (context_close p).1 = Ok tt).

(** [asyncio.gather] over the semaphore-wrapped coroutines.  The
    coroutines are run one after the other in list order, which is the
    schedule the semaphore enforces for [n = 1]; interleavings of several
    active coroutines at their [await]s are not represented.  As with
    [gather], the first exception that escapes a coroutine is the
    exception of the whole call. *)
Definition gather_with_concurrency (n : Z) (tasks : list (M (world P) unit))
  : M (world P) unit :=
  for_each tasks id.

Definition listing_phase : M (world P) unit :=
  gather_with_concurrency 2 (handle_listing <$> listing_urls).

Definition product_phase (fuel : nat) (pages_number : Z)
    (products_urls : gset string) : M (world P) unit :=
  gather_with_concurrency pages_number (handle_url fuel <$> elements products_urls).

Definition run (fuel : nat) (headless : bool) (pages_number : Z)
  : M (world P) unit :=
  on_page (await (launch headless)) ;;
  try_finally
    (listing_phase ;;
     products_urls <- load_products_urls ;;
     product_phase fuel pages_number products_urls)
    (on_page (await browser_close)).

(** How a run may change the shared containers: records are only ever
    appended to [data], and URLs only ever added to [failed_urls] and to
    [products_urls.pkl]. *)
Definition only_grows (w w' : world P) : Prop :=
  data w `prefix_of` data w'
  ∧ failed_urls w ⊆ failed_urls w'
  ∧ known_products_urls w ⊆ known_products_urls w'.

(** What a listing task leaves alone: the records, the failed URLs and
    the files written from them. *)
Definition same_records (w w' : world P) : Prop :=
  data w' = data w
  ∧ failed_urls w' = failed_urls w
  ∧ failed_urls_pkl w' = failed_urls_pkl w
  ∧ data_pkl w' = data_pkl w
  ∧ output_csv w' = output_csv w.

(** What a product task may do: append to [data], add to [failed_urls],
    and nothing to [products_urls.pkl]. *)
Definition product_step (w w' : world P) : Prop :=
  data w `prefix_of` data w'
  ∧ failed_urls w ⊆ failed_urls w'
  ∧ products_urls_pkl w' = products_urls_pkl w.

(** [data.pkl] and [output.csv] hold all of [data]. *)
Definition data_saved (w : world P) : Prop :=
  data_pkl w = Some (data w) ∧ output_csv w = Some (data w).

(** Nothing but the browser changed. *)
Definition same_containers (w w' : world P) : Prop :=
  data w' = data w
  ∧ failed_urls w' = failed_urls w
  ∧ products_urls_pkl w' = products_urls_pkl w
  ∧ failed_urls_pkl w' = failed_urls_pkl w
  ∧ data_pkl w' = data_pkl w
  ∧ output_csv w' = output_csv w
  ∧ trace w' = trace w.


(** An options dictionary with one entry per select and no empty option
    value. *)
Definition usable_options (d : list (handle * list string)) : Prop :=
  NoDup d.*1 ∧ Forall (λ kv, Forall (λ v, v ≠ EmptyString) kv.2) d.

(** Two ways a cart may answer the probe while the product form is open
    ([on_form]).  An accumulating cart keeps the units it accepts, and
    accepts a request when these and the request together do not exceed
    the stock [Q]; a comparing cart only compares the request with [Q]. *)
Definition accumulating_cart (Q : Z) (in_cart : P → Z) (on_form : P → Prop)
  : Prop :=
  ∀ fuel v p, on_form p →
    ∃ p', try_inventory_quantity (S fuel) v p = (Return (in_cart p + v <=? Q), p')
          ∧ on_form p'
          ∧ in_cart p' = if in_cart p + v <=? Q then in_cart p + v else in_cart p.

Definition comparing_cart (Q : Z) (on_form : P → Prop) : Prop :=
  ∀ fuel v p, on_form p →
    ∃ p', try_inventory_quantity (S fuel) v p = (Return (v <=? Q), p')
          ∧ on_form p'.

(** [failed_urls.pkl] is as it was. *)
Definition same_failed_urls_pkl (w w' : world P) : Prop :=
  failed_urls_pkl w' = failed_urls_pkl w.

End with_agent.
End PlaywrightUtils.

(* ===================================================================== *)
(** * [scraper.py]: the single-file variant of the prober                 *)
(* ===================================================================== *)

Module Scraper.

(** The product form as [scraper.py] drives it. *)
Class CartForm (P : Type) : Type := {
  quantity_input : P → reply bool * P;        (* is there a quantity input? *)
  fill_quantity : Z → P → reply unit * P;
  add_to_cart_button : P → reply bool * P;    (* is there an add-to-cart button? *)
  click_button : P → reply unit * P;
  wait : Z → P → reply unit * P;
  error_element : nat → P → reply bool * P;   (* is [error_selectors[i]] on the page? *)
}.

Section with_form.
Context {P : Type} `{CartForm P}.

(** [for selector in error_selectors: ... return False] then
    [return True]. *)
Fixpoint no_error_shown (error_selectors : list nat) : M P bool :=
  match error_selectors with
  | [] => ret true
  | selector :: rest =>
      error_element <- await (error_element selector) ;;
      if error_element : bool then ret false else no_error_shown rest
  end.

Definition try_inventory_quantity (check_value : Z) : M P bool :=
  try_except
    (quantity_input <- await quantity_input ;;
     (if quantity_input : bool then await (fill_quantity check_value) else ret tt) ;;
     add_to_cart_button <- await add_to_cart_button ;;
     if add_to_cart_button : bool then
       await click_button ;;
       await (wait 2000) ;;
       no_error_shown [0; 1; 2]%nat
     else ret false)
    (λ e, Some (ret false)).

(** [while left <= right: ...] then [return right]. *)
Fixpoint binary_search (fuel : nat) (left right : Z) : M P Z :=
  if left <=? right then
    match fuel with
    | O => out_of_fuel
    | S fuel' =>
        let mid := (left + right) `div` 2 in
        available <- try_inventory_quantity mid ;;
        if available : bool
        then binary_search fuel' (mid + 1) right
        else binary_search fuel' left (mid - 1)
    end
  else ret right.

(** The interval [[1, check_value - 1]] shrinks at every round, so
    [check_value - 1] rounds are always enough. *)
Definition get_inventory_value (check_value : Z) : M P Z :=
  available <- try_inventory_quantity check_value ;;
  if available : bool then ret check_value
  else binary_search (Z.to_nat (check_value - 1)) 1 (check_value - 1).

(** A form that refuses a request exactly when it exceeds the stock [Q],
    as long as the product form is open ([on_form]). *)
Definition honest_form (Q : Z) (on_form : P → Prop) : Prop :=
  ∀ v p, on_form p →
    ∃ p', try_inventory_quantity v p = (Return (v <=? Q), p') ∧ on_form p'.

End with_form.
End Scraper.

(* ===================================================================== *)
(** * A simulated site                                                    *)
(* ===================================================================== *)

(** A small deterministic browser-and-site used to run the scraper on
    concrete inputs. *)
Module Sim.

Inductive call : Type :=
  | CLaunch | CBrowserClose | CNewContext | CNewPage | CGoto (url : string)
  | CPageClose | CContextClose | CWait
  | CPaginationAnchors | CCardLinks
  | CPopupButton | CClickPopup | CProductItem | CUnavailableButton
  | CAttributeSelects | COptionValues (h : handle)
  | CSelectOption (h : handle) (v : string) | CSelectLabel (h : handle)
  | CAvailabilityText
  | CFillQty (v : Z) | CClickAddToCart | CReload | CCartAddResponse
  | CClickConfirm | CClickModalClose.

Definition is_click (c : call) : bool :=
  match c with CClickAddToCart => true | _ => false end.
Definition is_reload (c : call) : bool :=
  match c with CReload => true | _ => false end.
Definition is_fill (c : call) : bool :=
  match c with CFillQty _ => true | _ => false end.
Definition count (f : call → bool) (history : list call) : nat :=
  length (filter (λ c, f c = true) history).
Global Arguments count : simpl never.

(** The quantities typed into the form, oldest first. *)
Definition filled_quantities (history : list call) : list Z :=
  reverse (omap (λ c, match c with CFillQty v => Some v | _ => None end) history).

(** The options selected, oldest first. *)
Definition selected_options (history : list call) : list string :=
  reverse (omap (λ c, match c with CSelectOption _ v => Some v | _ => None end) history).

Definition is_response (c : call) : bool :=
  match c with CCartAddResponse => true | _ => false end.

Definition blank_item : item :=
  Item "" "" None "" [("", ""); ("", ""); ("", ""); ("", "")] ""
       0 "" 0 "" "" "" None.

(** What the site serves under one URL. *)
Record page : Type := Page {
  anchors : list string;                  (* pagination links of a listing *)
  links : list string;                    (* product links of a listing *)
  scraped : item;                         (* what [get_product_item] reads *)
  unavailable : bool;
  selects : list (string * list (option string));  (* label, option values *)
  availability : option string;
  stock : Z;                              (* units that can be bought *)
  cumulative : bool;                      (* do accepted units stay in the cart? *)
}.

Definition blank_page : page :=
  Page [] [] blank_item false [] None 0 false.

Record sim : Type := Sim_ {
  site : list (string * page);
  current : string;                       (* URL of the open page *)
  qty : Z;                                (* quantity typed into the form *)
  cart : Z;                               (* units accepted so far *)
  history : list call;                    (* calls served, most recent first *)
}.

Definition start (site : list (string * page)) : sim := Sim_ site "" 0 0 [].

Definition lookup_page (url : string) (site : list (string * page)) : option page :=
  (list_find (λ up, up.1 = url) site) ≫= λ r, Some r.2.2.

Definition current_page (s : sim) : page :=
  default blank_page (lookup_page (current s) (site s)).
Global Arguments current_page : simpl never.

(** A fault policy says which call fails, given the calls served before. *)
Definition policy : Type := list call → call → option exn.

Definition no_faults : policy := λ _ _, None.

Definition log (c : call) (s : sim) : sim :=
  Sim_ (site s) (current s) (qty s) (cart s) (c :: history s).

Definition serve {A} (f : policy) (c : call) (normal : sim → reply A * sim)
  : sim → reply A * sim :=
  λ s, match f (history s) c with
       | Some e => (Fails e, log c s)
       | None => normal (log c s)
       end.

Definition done (s : sim) : reply unit * sim := (Ok tt, s).
Definition read {A} (f : page → A) (s : sim) : reply A * sim :=
  (Ok (f (current_page s)), s).

Definition sim_goto (url : string) (s : sim) : reply unit * sim :=
  match lookup_page url (site s) with
  | Some _ => (Ok tt, Sim_ (site s) url 0 0 (history s))
  | None => (Fails PlaywrightError, s)
  end.

Definition sim_fill (v : Z) (s : sim) : reply unit * sim :=
  (Ok tt, Sim_ (site s) (current s) v (cart s) (history s)).

(** The cart accepts the typed quantity as long as the units asked for so
    far do not exceed the stock. *)
Definition sim_response (s : sim) : reply cart_response * sim :=
  let pg := current_page s in
  if cart s + qty s <=? stock pg
  then (Ok (Data false),
        if cumulative pg
        then Sim_ (site s) (current s) (qty s) (cart s + qty s) (history s)
        else s)
  else (Ok (Data true), s).

Definition agent (f : policy) : PageAgent sim := {|
  launch _ := serve f CLaunch done;
  browser_close := serve f CBrowserClose done;
  new_context := serve f CNewContext done;
  new_page := serve f CNewPage done;
  goto url := serve f (CGoto url) (sim_goto url);
  page_url := current;
  page_close := serve f CPageClose done;
  context_close := serve f CContextClose done;
  wait_for_timeout _ := serve f CWait done;
  pagination_anchors := serve f CPaginationAnchors (read anchors);
  card_links := serve f CCardLinks (read links);
  popup_button := serve f CPopupButton (read (λ _, false));
  click_popup_button := serve f CClickPopup done;
  product_item := serve f CProductItem (read scraped);
  unavailable_button := serve f CUnavailableButton (read unavailable);
  attribute_selects :=
    serve f CAttributeSelects (read (λ pg, seq 0 (length (selects pg))));
  option_values h :=
    serve f (COptionValues h) (read (λ pg, default [] (snd <$> selects pg !! h)));
  select_option h v := serve f (CSelectOption h v) done;
  select_label h :=
    serve f (CSelectLabel h)
      (λ s, match selects (current_page s) !! h with
            | Some lv => (Ok lv.1, s)
            | None => (Fails AttributeError, s)
            end);
  availability_text := serve f CAvailabilityText (read availability);
  fill_qty v := serve f (CFillQty v) (sim_fill v);
  click_add_to_cart := serve f CClickAddToCart done;
  reload := serve f CReload done;
  cart_add_response := serve f CCartAddResponse sim_response;
  click_confirm := serve f CClickConfirm done;
  click_modal_close := serve f CClickModalClose done;
|}.

(** The form of [scraper.py] over the same stock rule. *)
Record form : Type := Form {
  form_stock : Z;
  form_qty : Z;
  form_error : bool;
  form_clicks : nat;
}.

Definition form_agent : Scraper.CartForm form := {|
  Scraper.quantity_input s := (Ok true, s);
  Scraper.fill_quantity v s :=
    (Ok tt, Form (form_stock s) v (form_error s) (form_clicks s));
  Scraper.add_to_cart_button s := (Ok true, s);
  Scraper.click_button s :=
    (Ok tt, Form (form_stock s) (form_qty s)
                 (negb (form_qty s <=? form_stock s)) (S (form_clicks s)));
  Scraper.wait _ s := (Ok tt, s);
  Scraper.error_element i s := (Ok (form_error s && bool_decide (i = 0%nat)), s);
|}.

(** An initial world around a simulated browser. *)
Definition world_of (s : sim) : world sim :=
  World s [] ∅ None None None None [].

(** A state of the simulation after some more calls on the same page. *)
Definition same_page (s s' : sim) : Prop :=
  site s' = site s ∧ current s' = current s ∧ qty s' = qty s ∧ cart s' = cart s.

(** The browser is on [pg] with an empty cart. *)
Definition probing (pg : page) (s : sim) : Prop :=
  lookup_page (current s) (site s) = Some pg ∧ cart s = 0.

(** Fault policies. *)
Definition timeout_every_click : policy :=
  λ _ c, if is_click c then Some TimeoutError else None.

Definition timeout_first_clicks (k : nat) : policy :=
  λ history c,
    if is_click c && (count is_click history <? k)%nat
    then Some TimeoutError else None.

(** The call number [n] (from 0) among those selected by [target] fails
    with [e]. *)
Definition fail_at (target : call → bool) (n : nat) (e : exn) : policy :=
  λ history c,
    if target c && (count target history =? n)%nat then Some e else None.

(** A product page with one [Size] select of two options. *)
Definition sized_product (name : string) (stock : Z) (cumulative : bool) : page :=
  Page [] []
       (Item "" "" (Some name) "" [("", ""); ("", ""); ("", ""); ("", "")] ""
             0 "" 0 "" "" "" None)
       false [("Size:", [Some "S"; Some "M"])] None stock cumulative.

(** The same product opened in the browser. *)
Definition on_product (stock : Z) (cumulative : bool) : sim :=
  Sim_ [("https://blackeaglearrows.com/rampage/", sized_product "Rampage" stock cumulative)]
       "https://blackeaglearrows.com/rampage/" 0 0 [].


(** A product page without any select, and one whose only select has no
    usable option. *)
Definition plain_product (name : string) (stock : Z) : page :=
  Page [] []
       (Item "" "" (Some name) "" [("", ""); ("", ""); ("", ""); ("", "")] ""
             0 "" 0 "" "" "" None)
       false [] None stock false.

Definition optionless_product (name : string) (stock : Z) : page :=
  Page [] []
       (Item "" "" (Some name) "" [("", ""); ("", ""); ("", ""); ("", "")] ""
             0 "" 0 "" "" "" None)
       false [("Size:", [Some ""; None])] None stock false.

Definition rampage_url : string := "https://blackeaglearrows.com/rampage/".
Definition spartan_url : string := "https://blackeaglearrows.com/spartan/".
Definition retired_url : string := "https://blackeaglearrows.com/retired/".

(** A shop with one listing that shows one product, and a second product
    that no listing shows. *)
Definition small_shop : list (string * page) :=
  [ ("https://blackeaglearrows.com/arrows/",
     Page [] [rampage_url] blank_item false [] None 0 false);
    ("https://blackeaglearrows.com/arrows/?page=1",
     Page [] [rampage_url] blank_item false [] None 0 false);
    (rampage_url, sized_product "Rampage" 0 false);
    (retired_url, sized_product "Retired" 0 false) ].



Definition listing_three_pages : sim :=
  Sim_ [("https://blackeaglearrows.com/arrows/",
         Page ["<a class=listing-pagination-link href=?page=2>2</a>";
               "<a class=listing-pagination-link href=?page=3>3</a>";
               "<a class=listing-pagination-link href=?page=2>Next</a>"] []
              blank_item false [] None 0 false)]
       "https://blackeaglearrows.com/arrows/" 0 0 [].

(** The browser shows the page [pg]. *)
Definition showing (pg : page) (s : sim) : Prop :=
  lookup_page (current s) (site s) = Some pg.

(** A product whose page says that it is sold out. *)
Definition sold_out_product (name : string) : page :=
  Page [] []
       (Item "" "" (Some name) "" [("", ""); ("", ""); ("", ""); ("", "")] ""
             0 "" 0 "" "" "" None)
       false [("Size:", [Some "S"; Some "M"])] (Some "Currently out of Stock") 0 false.

Definition on_sold_out_product : sim :=
  Sim_ [(rampage_url, sold_out_product "Rampage")] rampage_url 0 0 [].

(** A product with a colour and a size select; the first option of each
    is the empty placeholder. *)
Definition two_selects_product (name : string) (stock : Z) (cumulative : bool)
  : page :=
  Page [] []
       (Item "" "" (Some name) "" [("", ""); ("", ""); ("", ""); ("", "")] ""
             0 "" 0 "" "" "" None)
       false
       [("Colour: required", [Some ""; Some "Red"; Some "Blue"]);
        ("Size", [None; Some "S"; Some "M"; Some "L"])]
       None stock cumulative.

Definition on_two_selects_product (stock : Z) (cumulative : bool) : sim :=
  Sim_ [(rampage_url, two_selects_product "Rampage" stock cumulative)]
       rampage_url 0 0 [].

(** The simulated browser with a cart that gives the same answer to
    every request. *)
Definition answering (response_obj : cart_response) : PageAgent sim :=
  let a := agent no_faults in
  {| launch := @launch sim a;
     browser_close := @browser_close sim a;
     new_context := @new_context sim a;
     new_page := @new_page sim a;
     goto := @goto sim a;
     page_url := @page_url sim a;
     page_close := @page_close sim a;
     context_close := @context_close sim a;
     wait_for_timeout := @wait_for_timeout sim a;
     pagination_anchors := @pagination_anchors sim a;
     card_links := @card_links sim a;
     popup_button := @popup_button sim a;
     click_popup_button := @click_popup_button sim a;
     product_item := @product_item sim a;
     unavailable_button := @unavailable_button sim a;
     attribute_selects := @attribute_selects sim a;
     option_values := @option_values sim a;
     select_option := @select_option sim a;
     select_label := @select_label sim a;
     availability_text := @availability_text sim a;
     fill_qty := @fill_qty sim a;
     click_add_to_cart := @click_add_to_cart sim a;
     reload := @reload sim a;
     cart_add_response :=
       serve no_faults CCartAddResponse (λ s, (Ok response_obj, s));
     click_confirm := @click_confirm sim a;
     click_modal_close := @click_modal_close sim a |}.

End Sim.

(* ===================================================================== *)
(** * Properties of the variant enumeration                               *)
(* ===================================================================== *)

Module CombinationsFacts.
Import Combinations.

Lemma bind_ret_fmap {X Y} (f : X → Y) (l : list X) : (x ← l; [f x]) = f <$> l.
Proof. induction l as [|x l IH]; csimpl; by f_equal. Qed.

Lemma bind_bind {X Y Z} (f : X → list Y) (g : Y → list Z) (l : list X) :
  (l ≫= f) ≫= g = x ← l; f x ≫= g.
Proof.
  induction l as [|x l IH]; csimpl; [done|].
  by rewrite bind_app, IH.
Qed.

Lemma length_bind_const {X Y} (f : X → list Y) (n : nat) (l : list X) :
  (∀ x, length (f x) = n) → length (l ≫= f) = (length l * n)%nat.
Proof.
  intros Hf. induction l as [|x l IH]; csimpl; [done|].
  rewrite length_app, Hf, IH. lia.
Qed.

Section facts.
Context {A : Type}.
Implicit Types (axes pools : list (list A)) (axis : list A) (c : list A).

(** Running the remaining rounds from any intermediate [result] appends
    to each partial tuple every nested combination of the remaining
    pools, in order. *)
Lemma foldl_product_round pools : ∀ result,
  foldl product_round result pools
  = x ← result; c ← nested_iteration pools; [x ++ c].
Proof.
  induction pools as [|pool pools IH]; intros result; simpl.
  - csimpl. rewrite bind_ret_fmap.
    rewrite <-(list_fmap_id result) at 1.
    apply list_fmap_ext; intros _ x _. by rewrite app_nil_r.
  - rewrite IH. unfold product_round. rewrite bind_bind.
    apply list_bind_ext; [|done]. intros x.
    rewrite !bind_bind. apply list_bind_ext; [|done]. intros v.
    csimpl. rewrite app_nil_r.
    rewrite bind_bind. apply list_bind_ext; [|done]. intros c.
    csimpl. by rewrite <-app_assoc.
Qed.

Lemma product_nested pools : product pools = nested_iteration pools.
Proof.
  unfold product. rewrite foldl_product_round. csimpl.
  rewrite app_nil_r, bind_ret_fmap. apply list_fmap_id.
Qed.

Lemma nested_iteration_cons axis axes :
  nested_iteration (axis :: axes)
  = v ← axis; (v ::.) <$> nested_iteration axes.
Proof.
  simpl. apply list_bind_ext; [|done]. intros v. apply bind_ret_fmap.
Qed.

Lemma length_nested_iteration axes :
  length (nested_iteration axes) = axes_product axes.
Proof.
  induction axes as [|axis axes IH]; [done|].
  rewrite nested_iteration_cons. simpl. rewrite <-IH.
  apply length_bind_const. intros v. apply length_fmap.
Qed.

Lemma elem_of_nested_iteration axes : ∀ c,
  c ∈ nested_iteration axes ↔ drawn_from c axes.
Proof.
  unfold drawn_from.
  induction axes as [|axis axes IH]; intros c.
  - simpl. rewrite list_elem_of_singleton. split.
    + intros ->. constructor.
    + by intros ->%Forall2_nil_inv_r.
  - rewrite nested_iteration_cons, list_elem_of_bind. split.
    + intros (v & (c' & -> & Hc')%list_elem_of_fmap & Hv).
      constructor; [done|]. by apply IH.
    + intros (v & c' & Hv & Hc' & ->)%Forall2_cons_inv_r.
      exists v. split; [|done].
      apply list_elem_of_fmap. exists c'. split; [done|]. by apply IH.
Qed.

Lemma NoDup_nested_iteration axes :
  Forall NoDup axes → NoDup (nested_iteration axes).
Proof.
  induction 1 as [|axis axes Haxis _ IH].
  - apply NoDup_singleton.
  - rewrite nested_iteration_cons. apply NoDup_bind; [| |done].
    + intros v1 v2 c _ _ (c1 & -> & _)%list_elem_of_fmap
        (c2 & [= -> _] & _)%list_elem_of_fmap. done.
    + intros v _. apply (NoDup_fmap_2 _). done.
Qed.

(** Row-major order: option [i] of the first axis heads the [i]-th block
    of combinations, and inside a block the remaining axes are enumerated
    in the same way, so the last axis moves at every step. *)
Lemma nested_iteration_lookup axis axes (i j : nat) v c :
  axis !! i = Some v →
  nested_iteration axes !! j = Some c →
  nested_iteration (axis :: axes)
    !! (i * length (nested_iteration axes) + j)%nat = Some (v :: c).
Proof.
  rewrite nested_iteration_cons.
  revert i. induction axis as [|w axis IH]; intros i Hi Hj; [done|].
  rewrite bind_cons. destruct i as [|i]; simpl in *.
  - simplify_eq. rewrite lookup_app_l.
    + by rewrite list_lookup_fmap, Hj.
    + rewrite length_fmap. by eapply lookup_lt_Some.
  - rewrite lookup_app_r; rewrite length_fmap; [|lia].
    replace (length (nested_iteration axes) + i * length (nested_iteration axes)
             + j - length (nested_iteration axes))%nat
      with (i * length (nested_iteration axes) + j)%nat by lia.
    by apply IH.
Qed.

Lemma nested_iteration_empty_axis axes :
  [] ∈ axes → nested_iteration axes = [].
Proof.
  induction axes as [|axis axes IH]; [by intros ?%elem_of_nil|].
  intros [<-|Hin]%elem_of_cons; [done|].
  simpl. rewrite (IH Hin). clear. by induction axis.
Qed.

(** C3. For axes with option lists of sizes k1 .. kn, [get_all_combinations]
    yields exactly k1 * ... * kn combinations; they are pairwise distinct
    when every axis lists distinct options; a list is one of them exactly
    when its position [i] holds an option of axis [i]; and they come in
    nested-iteration order, the last axis varying fastest.  Being a
    function of the axes, the enumeration is the same on every run. *)
Theorem get_all_combinations_enumerates axes :
  length (get_all_combinations axes) = axes_product axes
  ∧ (Forall NoDup axes → NoDup (get_all_combinations axes))
  ∧ (∀ c, c ∈ get_all_combinations axes ↔ drawn_from c axes)
  ∧ get_all_combinations axes = nested_iteration axes.
Proof.
  unfold get_all_combinations. rewrite product_nested.
  split_and!; [apply length_nested_iteration|apply NoDup_nested_iteration
              |apply elem_of_nested_iteration|done].
Qed.

End facts.

Example colour_size_axes :
  get_all_combinations [["Red"; "Blue"]; ["S"; "M"; "L"]]
  = [["Red"; "S"]; ["Red"; "M"]; ["Red"; "L"];
     ["Blue"; "S"]; ["Blue"; "M"]; ["Blue"; "L"]].
Proof. reflexivity. Qed.

Lemma get_all_combinations_enumerates_colour_size :
  let axes := [["Red"; "Blue"]; ["S"; "M"; "L"]] in
  length (get_all_combinations axes) = 6%nat
  ∧ NoDup (get_all_combinations axes)
  ∧ ["Blue"; "M"] ∈ get_all_combinations axes.
Proof.
  intros axes.
  destruct (get_all_combinations_enumerates axes) as (Hlen & Hnodup & Hin & _).
  split_and!.
  - exact Hlen.
  - apply Hnodup. apply (bool_decide_unpack _). reflexivity.
  - apply Hin. repeat constructor.
Defined.

End CombinationsFacts.


(* ===================================================================== *)
(** * Properties of the text helpers                                      *)
(* ===================================================================== *)

Module TextFacts.
Import Text.













(** [c in s] for a single character. *)
Lemma contains_char c d s :
  contains (String c EmptyString) (String d s)
  = bool_decide (c = d) || contains (String c EmptyString) s.
Proof.
  simpl. destruct (ascii_dec c d) as [->|Hne].
  - rewrite bool_decide_eq_true_2 by done. by destruct s.
  - by rewrite bool_decide_eq_false_2 by done.
Qed.




End TextFacts.

(* ===================================================================== *)
(** * Properties of the file-name, column and report helpers              *)
(* ===================================================================== *)

Module DataManipulationFacts.
Import DataManipulation.

Lemma replace_char_chars old s c :
  c ∈ String.list_ascii_of_string (replace_char old s) →
  c = " "%char ∨ (c ∈ String.list_ascii_of_string s ∧ c ≠ old).
Proof.
  induction s as [|d s IH]; simpl; [by intros ?%elem_of_nil|].
  intros [->|Hin]%elem_of_cons.
  - destruct (Ascii.eqb_spec d old); [by left|]. right. split; [by left|done].
  - destruct (IH Hin) as [?|[? ?]]; [by left|]. right. split; [by right|done].
Qed.

Lemma sub_spaces_from_chars in_run s c :
  c ∈ String.list_ascii_of_string (sub_spaces_from in_run s) →
  c = " "%char ∨ (c ∈ String.list_ascii_of_string s ∧ is_space c = false).
Proof.
  revert in_run. induction s as [|d s IH]; intros in_run; simpl;
    [by intros ?%elem_of_nil|].
  destruct (is_space d) eqn:Hd.
  - destruct in_run; simpl.
    + intros Hin. destruct (IH _ Hin) as [?|[? ?]]; [by left|]. right.
      split; [by right|done].
    + intros [->|Hin]%elem_of_cons; [by left|].
      destruct (IH _ Hin) as [?|[? ?]]; [by left|]. right. split; [by right|done].
  - simpl. intros [->|Hin]%elem_of_cons; [right; split; [by left|done]|].
    destruct (IH _ Hin) as [?|[? ?]]; [by left|]. right. split; [by right|done].
Qed.

Lemma lstrip_chars s c :
  c ∈ String.list_ascii_of_string (lstrip s) → c ∈ String.list_ascii_of_string s.
Proof.
  induction s as [|d s IH]; simpl; [done|].
  destruct (is_space d); [|done]. intros Hin. right. by apply IH.
Qed.

Lemma rstrip_chars s c :
  c ∈ String.list_ascii_of_string (rstrip s) → c ∈ String.list_ascii_of_string s.
Proof.
  induction s as [|d s IH]; simpl; [done|].
  destruct (rstrip s) as [|e r] eqn:Hr.
  - destruct (is_space d); simpl; [by intros ?%elem_of_nil|].
    intros [->|?%elem_of_nil]%elem_of_cons; [by left|done].
  - intros [->|Hin]%elem_of_cons; [by left|]. right. by apply IH.
Qed.


Lemma rstrip_idemp s : rstrip (rstrip s) = rstrip s.
Proof.
  induction s as [|c s IH]; simpl; [done|].
  destruct (rstrip s) as [|e r] eqn:Hr.
  - destruct (is_space c) eqn:Hc; simpl; [done|]. by rewrite Hc.
  - simpl in IH |- *. by rewrite IH.
Qed.

Lemma rstrip_head c s :
  is_space c = false → ∃ r, rstrip (String c s) = String c r.
Proof.
  intros Hc. simpl. destruct (rstrip s); [rewrite Hc|]; by eexists.
Qed.

Lemma lstrip_head s :
  lstrip s = EmptyString ∨ ∃ c r, lstrip s = String c r ∧ is_space c = false.
Proof.
  induction s as [|c s IH]; simpl; [by left|].
  destruct (is_space c) eqn:Hc; [done|]. right. by exists c, s.
Qed.

Lemma strip_idemp s : strip (strip s) = strip s.
Proof.
  unfold strip. destruct (lstrip_head s) as [->|(c & r & -> & Hc)]; [done|].
  destruct (rstrip_head c r Hc) as (r' & Hr). rewrite Hr. simpl lstrip.
  rewrite Hc, <-Hr. apply rstrip_idemp.
Qed.

Lemma squeezed_weaken b s : squeezed true s = true → squeezed b s = true.
Proof. destruct s as [|c s]; simpl; [done|]. by destruct (is_space c), b. Qed.

Lemma squeezed_sub_spaces_from in_run s :
  squeezed in_run (sub_spaces_from in_run s) = true.
Proof.
  revert in_run. induction s as [|c s IH]; intros in_run; simpl; [done|].
  destruct (is_space c) eqn:Hc.
  - destruct in_run; [apply IH|]. simpl. by rewrite IH.
  - simpl. by rewrite Hc.
Qed.

Lemma sub_spaces_from_squeezed b s :
  squeezed b s = true → sub_spaces_from b s = s.
Proof.
  revert b. induction s as [|c s IH]; intros b; simpl; [done|].
  destruct (is_space c) eqn:Hc.
  - intros [[Hb Heq%Ascii.eqb_eq]%andb_true_iff Hs]%andb_true_iff.
    destruct b; [done|]. subst c. by rewrite IH.
  - intros Hs. by rewrite IH.
Qed.

Lemma squeezed_lstrip b b' s : squeezed b s = true → squeezed b' (lstrip s) = true.
Proof.
  revert b. induction s as [|c s IH]; intros b; simpl; [done|].
  destruct (is_space c) eqn:Hc.
  - intros [_ Hs]%andb_true_iff. by eapply IH.
  - intros Hs. simpl. by rewrite Hc.
Qed.

Lemma squeezed_rstrip b s : squeezed b s = true → squeezed b (rstrip s) = true.
Proof.
  revert b. induction s as [|c s IH]; intros b; simpl; [done|].
  destruct (is_space c) eqn:Hc.
  - intros [Hb Hs]%andb_true_iff. apply IH in Hs.
    destruct (rstrip s) as [|e r]; [done|]. simpl squeezed at 1.
    by rewrite Hc, Hb.
  - intros Hs. apply IH in Hs.
    destruct (rstrip s) as [|e r]; simpl squeezed at 1; by rewrite Hc.
Qed.

Lemma name_chars_cons c s :
  name_chars (String c s)
  = if is_name_char c then c :: name_chars s else name_chars s.
Proof.
  unfold name_chars. simpl. rewrite filter_cons.
  destruct (is_name_char c); by case_decide.
Qed.

Lemma is_name_char_space c : is_space c = true → is_name_char c = false.
Proof. unfold is_name_char. by intros ->. Qed.

Lemma name_chars_replace_char old s :
  old ∈ name_cleaning_list →
  name_chars (replace_char old s) = name_chars s.
Proof.
  intros Hold. induction s as [|c s IH]; [done|].
  simpl. rewrite !name_chars_cons, IH.
  destruct (Ascii.eqb_spec c old) as [->|]; [|done].
  replace (is_name_char " ") with false by done.
  replace (is_name_char old) with false; [done|].
  symmetry. unfold is_name_char. apply andb_false_iff. right.
  apply not_true_is_false. rewrite forallb_forall. intros Hall.
  specialize (Hall old (proj1 (list_elem_of_In _ _) Hold)).
  by rewrite Ascii.eqb_refl in Hall.
Qed.

Lemma name_chars_sub_spaces_from b s :
  name_chars (sub_spaces_from b s) = name_chars s.
Proof.
  revert b. induction s as [|c s IH]; intros b; [done|].
  simpl. destruct (is_space c) eqn:Hc.
  - rewrite (name_chars_cons c), is_name_char_space by done.
    destruct b; [apply IH|]. rewrite name_chars_cons.
    replace (is_name_char " ") with false by done. apply IH.
  - by rewrite !name_chars_cons, IH.
Qed.

Lemma name_chars_lstrip s : name_chars (lstrip s) = name_chars s.
Proof.
  induction s as [|c s IH]; [done|]. simpl.
  destruct (is_space c) eqn:Hc; [|done].
  by rewrite (name_chars_cons c), is_name_char_space.
Qed.

Lemma name_chars_rstrip s : name_chars (rstrip s) = name_chars s.
Proof.
  induction s as [|c s IH]; [done|]. simpl.
  rewrite (name_chars_cons c s), <-IH. destruct (rstrip s) as [|e r].
  - destruct (is_space c) eqn:Hc.
    + by rewrite is_name_char_space.
    + by rewrite name_chars_cons.
  - by rewrite name_chars_cons.
Qed.

(** X12.  For a name that is not empty, [clean_file_name] gives a stem
    followed by [.html].  The stem holds neither a slash nor a double
    quote, its only white space is single spaces between other characters
    (stripping it or collapsing its white space again changes nothing),
    and apart from white space, slashes and quotes it holds the
    characters of the name, in the same order. *)
Theorem clean_file_name_tidy (name : string) :
  name ≠ EmptyString →
  ∃ stem,
    clean_file_name (Some name) = stem +:+ ".html"
    ∧ (∀ c, c ∈ String.list_ascii_of_string stem →
         c ≠ "/"%char ∧ c ≠ "034"%char ∧ (is_space c = true → c = " "%char))
    ∧ strip stem = stem
    ∧ sub_spaces stem = stem
    ∧ name_chars stem = name_chars name.
Proof.
  intros Hname.
  exists (strip (sub_spaces (replace_char "034" (replace_char "/" name)))).
  split_and!.
  - by destruct name.
  - intros c Hc. unfold strip in Hc.
    apply rstrip_chars, lstrip_chars, sub_spaces_from_chars in Hc
      as [->|[Hc Hspace]]; [done|].
    apply replace_char_chars in Hc as [->|[Hc Hquote]]; [done|].
    apply replace_char_chars in Hc as [->|[Hc Hslash]]; [done|].
    split_and!; [done..|]. by rewrite Hspace.
  - apply strip_idemp.
  - apply sub_spaces_from_squeezed. unfold strip.
    apply squeezed_rstrip. eapply squeezed_lstrip.
    apply squeezed_sub_spaces_from.
  - unfold strip, sub_spaces.
    rewrite name_chars_rstrip, name_chars_lstrip, name_chars_sub_spaces_from.
    rewrite !name_chars_replace_char; [done|by left|by right; left].
Qed.

Lemma rename_column_other item old new k :
  k ≠ old → k ≠ new → rename_column item (old, new) !! k = item !! k.
Proof.
  intros Hold Hnew. unfold rename_column.
  destruct (item !! old); rewrite lookup_insert_ne by done;
    [by rewrite lookup_delete_ne|done].
Qed.

Lemma rename_column_new item old new :
  rename_column item (old, new) !! new = Some (default (VStr "") (item !! old)).
Proof.
  unfold rename_column. destruct (item !! old); by rewrite lookup_insert_eq.
Qed.

Lemma rename_column_old item old new :
  old ≠ new → rename_column item (old, new) !! old = None.
Proof.
  intros Hne. unfold rename_column. destruct (item !! old) eqn:Hold;
    rewrite lookup_insert_ne by done; [by rewrite lookup_delete_eq|done].
Qed.

Lemma foldl_rename_column cols : ∀ item,
  NoDup cols.*1 → NoDup cols.*2 → (∀ k, k ∈ cols.*1 → k ∉ cols.*2) →
  (∀ old new, (old, new) ∈ cols →
     foldl rename_column item cols !! new = Some (default (VStr "") (item !! old))
     ∧ foldl rename_column item cols !! old = None)
  ∧ (∀ k, k ∉ cols.*1 → k ∉ cols.*2 →
       foldl rename_column item cols !! k = item !! k).
Proof.
  induction cols as [|[o n] cols IH]; intros item Holds Hnews Hdisj.
  { split; [by intros ?? ?%elem_of_nil|done]. }
  rewrite !fmap_cons in Holds, Hnews, Hdisj |- *. cbn [foldl fst snd] in *.
  apply NoDup_cons in Holds as [Ho Holds].
  apply NoDup_cons in Hnews as [Hn Hnews].
  assert (o ≠ n) as Hon by (intros ->; apply (Hdisj n); by left).
  assert (o ∉ cols.*2) as Ho2 by (intros ?; apply (Hdisj o); [by left|by right]).
  assert (n ∉ cols.*1) as Hn1 by (intros ?; apply (Hdisj n); [by right|by left]).
  destruct (IH (rename_column item (o, n)) Holds Hnews) as [Hpairs Hother].
  { intros k Hk Hk'. apply (Hdisj k); by right. }
  split.
  - intros old new [[= -> ->]|Hin]%elem_of_cons.
    + rewrite !Hother by done.
      split; [apply rename_column_new|by apply rename_column_old].
    + destruct (Hpairs old new Hin) as [-> ->]. split; [|done].
      assert (old ∈ cols.*1) by (apply list_elem_of_fmap; by exists (old, new)).
      rewrite rename_column_other; [done|by intros ->|].
      intros ->. apply (Hdisj n); [by right|by left].
  - intros k [Hko Hk1]%not_elem_of_cons [Hkn Hk2]%not_elem_of_cons.
    rewrite Hother by done. by apply rename_column_other.
Qed.

(** X15.  [rename_columns] returns one dictionary per record.  When the
    old names are pairwise distinct, the new names are pairwise distinct
    and no name is both, every new name holds what the record held under
    the old name, or the empty string if it held nothing, every old name is
    gone, and the other keys are as they were. *)
Theorem rename_columns_renames (data_container : list (gmap string value))
    (cols : list (string * string)) :
  NoDup cols.*1 → NoDup cols.*2 → (∀ k, k ∈ cols.*1 → k ∉ cols.*2) →
  length (rename_columns data_container cols) = length data_container
  ∧ ∀ i item, data_container !! i = Some item →
      ∃ new_item,
        rename_columns data_container cols !! i = Some new_item
        ∧ (∀ old_key new_key, (old_key, new_key) ∈ cols →
             new_item !! new_key = Some (default (VStr "") (item !! old_key))
             ∧ new_item !! old_key = None)
        ∧ (∀ k, k ∉ cols.*1 → k ∉ cols.*2 → new_item !! k = item !! k).
Proof.
  intros Holds Hnews Hdisj. unfold rename_columns.
  split; [apply length_fmap|].
  intros i item Hi. exists (foldl rename_column item cols).
  split; [by rewrite list_lookup_fmap, Hi|].
  by apply foldl_rename_column.
Qed.

Lemma column_mapping_proper :
  NoDup column_mapping.*1 ∧ NoDup column_mapping.*2
  ∧ ∀ k, k ∈ column_mapping.*1 → k ∉ column_mapping.*2.
Proof.
  split_and!.
  - apply (bool_decide_unpack _). by vm_compute.
  - apply (bool_decide_unpack _). by vm_compute.
  - apply Forall_forall. apply (bool_decide_unpack _). by vm_compute.
Qed.
Lemma filter_by_spec test xs :
  match filter_by test xs with
  | Some l => Forall (λ x, is_Some (test x)) xs
              ∧ l = filter (λ x, test x = Some true) xs
  | None => Exists (λ x, test x = None) xs
  end.
Proof.
  induction xs as [|x xs IH]; simpl; [by split|].
  destruct (test x) as [b|] eqn:Hx; simpl; [|by left].
  destruct (filter_by test xs) as [l|]; simpl; [|by right].
  destruct IH as [Hall ->]. split; [by constructor|].
  rewrite filter_cons. rewrite Hx. destruct b; by case_decide.
Qed.

Lemma gt_int_none x n : gt_int x n = None ↔ ¬ is_int x.
Proof.
  destruct x; simpl; split; try done.
  - intros _ [m [=]].
  - intros Hx. destruct Hx. by eexists.
  - intros _ [m [=]].
Qed.

Lemma count_eq_cons n x data :
  count_eq n (x :: data)
  = ((if eq_int (current_stock x) n then 1 else 0) + count_eq n data)%nat.
Proof.
  unfold count_eq. rewrite filter_cons.
  destruct (eq_int (current_stock x) n); by case_decide.
Qed.

Lemma count_gt_cons n x data :
  count_gt n (x :: data)
  = ((if gt_int (current_stock x) n is Some true then 1 else 0) + count_gt n data)%nat.
Proof.
  unfold count_gt. rewrite filter_cons.
  destruct (gt_int (current_stock x) n) as [[]|]; by case_decide.
Qed.

Lemma counts_of_integers data :
  Forall (λ x, is_int (current_stock x)) data →
  (count_eq 0 data + count_gt 0 data ≤ length data)%nat
  ∧ (count_eq 1 data + count_gt 5 data ≤ count_gt 0 data)%nat
  ∧ (Forall (λ x, ∀ n, current_stock x = VInt n → 0 ≤ n) data →
     (count_eq 0 data + count_gt 0 data = length data)%nat).
Proof.
  induction 1 as [|x data [n Hn] _ (IH1 & IH2 & IH3)]; [done|].
  rewrite !count_eq_cons, !count_gt_cons, Hn. simpl.
  split_and!.
  - destruct (Z.eqb_spec n 0), (Z.ltb_spec 0 n); lia.
  - destruct (Z.eqb_spec n 1), (Z.ltb_spec 5 n), (Z.ltb_spec 0 n); lia.
  - intros [Hx Hall]%Forall_cons. specialize (Hx n Hn). specialize (IH3 Hall).
    destruct (Z.eqb_spec n 0), (Z.ltb_spec 0 n); lia.
Qed.

(** X18.  [standardize_data] of an empty list has four empty categories
    and no summary.  Of a list that is not empty it raises [TypeError]
    exactly when some record holds a [Current stock] that is not an
    integer (a record without the key counts as 0).  Otherwise the summary
    counts all records, each category has as many records as its count,
    out-of-stock and in-stock records together are at most all records and
    are all of them when no stock is negative, and the records with one
    unit and those with more than five are together at most the in-stock
    ones. *)
Theorem standardize_data_summary (data : list (gmap string value)) :
  standardize_data [] = Some (StandardData [] [] [] [] None)
  ∧ (data ≠ [] →
     (standardize_data data = None
      ↔ ∃ product_item,
          product_item ∈ data ∧ ¬ is_int (current_stock product_item))
     ∧ ∀ sd, standardize_data data = Some sd →
         ∃ s, summary_of sd = Some s
              ∧ total_products s = length data
              ∧ length (out_of_stocks_products sd) = out_of_stock_count s
              ∧ length (in_stocks_products sd) = in_stock_count s
              ∧ length (more_5_stocks_products sd) = well_stocked_count s
              ∧ length (only_1_stocks_products sd) = low_stock_count s
              ∧ (out_of_stock_count s + in_stock_count s ≤ total_products s)%nat
              ∧ (low_stock_count s + well_stocked_count s ≤ in_stock_count s)%nat
              ∧ ((∀ product_item n, product_item ∈ data →
                    current_stock product_item = VInt n → 0 ≤ n) →
                 (out_of_stock_count s + in_stock_count s
                  = total_products s)%nat)).
Proof.
  split; [done|].
  intros Hdata. unfold standardize_data.
  destruct data as [|x0 data0] eqn:Hd; [done|]. rewrite <-Hd in *. clear Hd Hdata.
  pose proof (filter_by_spec (λ product_item, gt_int (current_stock product_item) 0) data)
    as H0.
  pose proof (filter_by_spec (λ product_item, gt_int (current_stock product_item) 5) data)
    as H5.
  destruct (filter_by _ data) as [in_stock|] eqn:Ein; simpl.
  - destruct H0 as [Hall ->].
    assert (Forall (λ x, is_int (current_stock x)) data) as Hints.
    { eapply Forall_impl; [exact Hall|]. intros x [b Hb]. simpl in Hb.
      destruct (current_stock x); try done. by eexists. }
    destruct (filter_by (λ product_item, gt_int (current_stock product_item) 5) data)
      as [more|] eqn:Emore; simpl.
    + destruct H5 as [_ ->]. split.
      * split; [done|]. intros (x & Hx & Hnot).
        apply (proj1 (Forall_forall _ _) Hints) in Hx. done.
      * intros sd [= <-]. eexists. split; [done|]. simpl.
        unfold rename_columns. rewrite !length_fmap.
        destruct (counts_of_integers data Hints) as (C1 & C2 & C3).
        split_and!; try done.
        intros Hnonneg. apply C3, Forall_forall. intros x Hx n. by apply Hnonneg.
    + exfalso. apply Exists_exists in H5 as (x & Hx & Hnone).
      apply gt_int_none in Hnone.
      apply (proj1 (Forall_forall _ _) Hints) in Hx. done.
  - split; [|done]. split; [|done]. intros _.
    apply Exists_exists in H0 as (x & Hx & Hnone).
    exists x. split; [done|]. by apply gt_int_none in Hnone.
Qed.
Lemma sd_rename_column_other item old new k :
  k ≠ old → k ≠ new → ScraperData.rename_column item (old, new) !! k = item !! k.
Proof.
  intros Hold Hnew. unfold ScraperData.rename_column.
  destruct (item !! old); [|done].
  by rewrite lookup_insert_ne, lookup_delete_ne by done.
Qed.

Lemma sd_rename_column_new item old new :
  old ≠ new →
  ScraperData.rename_column item (old, new) !! new
  = from_option Some (item !! new) (item !! old).
Proof.
  intros Hne. unfold ScraperData.rename_column.
  destruct (item !! old); simpl; [by rewrite lookup_insert_eq|done].
Qed.

Lemma sd_rename_column_old item old new :
  old ≠ new → ScraperData.rename_column item (old, new) !! old = None.
Proof.
  intros Hne. unfold ScraperData.rename_column. destruct (item !! old) eqn:Hold;
    [|done]. by rewrite lookup_insert_ne, lookup_delete_eq by done.
Qed.

Lemma sd_foldl_rename_column cols : ∀ item,
  NoDup cols.*1 → NoDup cols.*2 → (∀ k, k ∈ cols.*1 → k ∉ cols.*2) →
  (∀ old new, (old, new) ∈ cols →
     foldl ScraperData.rename_column item cols !! new
     = from_option Some (item !! new) (item !! old)
     ∧ foldl ScraperData.rename_column item cols !! old = None)
  ∧ (∀ k, k ∉ cols.*1 → k ∉ cols.*2 →
       foldl ScraperData.rename_column item cols !! k = item !! k).
Proof.
  induction cols as [|[o n] cols IH]; intros item Holds Hnews Hdisj.
  { split; [by intros ?? ?%elem_of_nil|done]. }
  rewrite !fmap_cons in Holds, Hnews, Hdisj |- *. cbn [foldl fst snd] in *.
  apply NoDup_cons in Holds as [Ho Holds].
  apply NoDup_cons in Hnews as [Hn Hnews].
  assert (o ≠ n) as Hon by (intros ->; apply (Hdisj n); by left).
  assert (o ∉ cols.*2) as Ho2 by (intros ?; apply (Hdisj o); [by left|by right]).
  assert (n ∉ cols.*1) as Hn1 by (intros ?; apply (Hdisj n); [by right|by left]).
  destruct (IH (ScraperData.rename_column item (o, n)) Holds Hnews) as [Hpairs Hother].
  { intros k Hk Hk'. apply (Hdisj k); by right. }
  split.
  - intros old new [[= -> ->]|Hin]%elem_of_cons.
    + rewrite !Hother by done.
      split; [by apply sd_rename_column_new|by apply sd_rename_column_old].
    + destruct (Hpairs old new Hin) as [-> ->]. split; [|done].
      assert (old ∈ cols.*1) by (apply list_elem_of_fmap; by exists (old, new)).
      assert (new ∈ cols.*2) by (apply list_elem_of_fmap; by exists (old, new)).
      rewrite !sd_rename_column_other; [done| | | |].
      * by intros ->.
      * intros ->. apply (Hdisj n); [by right|by left].
      * intros ->. apply (Hdisj o); [by left|by right].
      * by intros ->.
  - intros k [Hko Hk1]%not_elem_of_cons [Hkn Hk2]%not_elem_of_cons.
    rewrite Hother by done. by apply sd_rename_column_other.
Qed.

(** X16.  [rename_columns] of [scraper.py], under the same conditions on
    the names: a new name holds what the record held under the old name,
    and when it held nothing there the new name is left as it was, not
    created; every old name is gone, and the other keys are as they
    were. *)
Theorem scraper_rename_columns_skips_missing
    (data_container : list (gmap string value)) (cols : list (string * string)) :
  NoDup cols.*1 → NoDup cols.*2 → (∀ k, k ∈ cols.*1 → k ∉ cols.*2) →
  length (ScraperData.rename_columns data_container cols) = length data_container
  ∧ ∀ i item, data_container !! i = Some item →
      ∃ new_item,
        ScraperData.rename_columns data_container cols !! i = Some new_item
        ∧ (∀ old_name new_name, (old_name, new_name) ∈ cols →
             new_item !! new_name
             = from_option Some (item !! new_name) (item !! old_name)
             ∧ new_item !! old_name = None)
        ∧ (∀ k, k ∉ cols.*1 → k ∉ cols.*2 → new_item !! k = item !! k).
Proof.
  intros Holds Hnews Hdisj. unfold ScraperData.rename_columns.
  split; [apply length_fmap|].
  intros i item Hi. exists (foldl ScraperData.rename_column item cols).
  split; [by rewrite list_lookup_fmap, Hi|].
  by apply sd_foldl_rename_column.
Qed.

(** X17.  The renaming that [update_output] of [scraper.py] asks for names
    the columns [Current_stock] and [Previous_stock], while the records
    hold [Current stock] and [Previous stock].  On a record without the
    underscore keys only [product_name] is renamed: both stock columns
    stay under their old names, and no [Current Stock] or [Previous Stock]
    column appears. *)
Theorem update_output_keeps_stock_columns (item : gmap string value) :
  item !! "Current_stock" = None → item !! "Previous_stock" = None →
  let new_item := foldl ScraperData.rename_column item ScraperData.update_output_columns in
  new_item !! "Current stock" = item !! "Current stock"
  ∧ new_item !! "Previous stock" = item !! "Previous stock"
  ∧ new_item !! "Current Stock" = item !! "Current Stock"
  ∧ new_item !! "Previous Stock" = item !! "Previous Stock"
  ∧ new_item !! "Product Name"
    = from_option Some (item !! "Product Name") (item !! "product_name").
Proof.
  intros Hc Hp new_item. subst new_item.
  destruct (sd_foldl_rename_column ScraperData.update_output_columns item)
    as [Hpairs Hother].
  { apply (bool_decide_unpack _). by vm_compute. }
  { apply (bool_decide_unpack _). by vm_compute. }
  { apply Forall_forall. apply (bool_decide_unpack _). by vm_compute. }
  split_and!.
  - apply Hother; apply (bool_decide_unpack _); by vm_compute.
  - apply Hother; apply (bool_decide_unpack _); by vm_compute.
  - destruct (Hpairs "Current_stock" "Current Stock") as [-> _];
      [by right; left|]. by rewrite Hc.
  - destruct (Hpairs "Previous_stock" "Previous Stock") as [-> _];
      [by right; right; left|]. by rewrite Hp.
  - by destruct (Hpairs "product_name" "Product Name") as [-> _]; [by left|].
Qed.

(** X14.  [clean_file_name] of [scraper.py] fails with [AttributeError] on
    [None] and otherwise gives a stem followed by [.html], also for the
    empty name.  The stem holds no slash and no double quote, its white
    space is single spaces, and it keeps the other characters of the
    name; but it is not stripped: stripping it gives the stem of the
    [utils] version. *)
Theorem scraper_clean_file_name_keeps_outer_space :
  ScraperData.clean_file_name None = Fails AttributeError
  ∧ ∀ name : string,
      ∃ stem,
        ScraperData.clean_file_name (Some name) = Ok (stem +:+ ".html")
        ∧ (∀ c, c ∈ String.list_ascii_of_string stem →
             c ≠ "/"%char ∧ c ≠ "034"%char ∧ (is_space c = true → c = " "%char))
        ∧ sub_spaces stem = stem
        ∧ name_chars stem = name_chars name
        ∧ (name ≠ EmptyString →
           DataManipulation.clean_file_name (Some name) = strip stem +:+ ".html").
Proof.
  split; [done|]. intros name.
  exists (sub_spaces (replace_char "034" (replace_char "/" name))).
  split_and!.
  - done.
  - intros c Hc.
    apply sub_spaces_from_chars in Hc as [->|[Hc Hspace]]; [done|].
    apply replace_char_chars in Hc as [->|[Hc Hquote]]; [done|].
    apply replace_char_chars in Hc as [->|[Hc Hslash]]; [done|].
    split_and!; [done..|]. by rewrite Hspace.
  - apply sub_spaces_from_squeezed, squeezed_sub_spaces_from.
  - unfold sub_spaces. rewrite name_chars_sub_spaces_from.
    rewrite !name_chars_replace_char; [done|by left|by right; left].
  - intros Hname. by destruct name.
Qed.

Lemma lstrip_all_spaces s :
  (∀ c, c ∈ String.list_ascii_of_string s → is_space c = true) →
  lstrip s = EmptyString.
Proof.
  intros Hall. destruct (lstrip_head s) as [?|(c & r & Hs & Hc)]; [done|].
  rewrite Hall in Hc; [done|]. apply lstrip_chars. rewrite Hs. by left.
Qed.

(** X13.  Without a name ([None] or the empty string) the file is
    [unnamed_product.html]; a name made only of white space, slashes and
    double quotes gives the file name [.html]. *)
Theorem clean_file_name_without_name :
  clean_file_name None = "unnamed_product.html"
  ∧ clean_file_name (Some EmptyString) = "unnamed_product.html"
  ∧ ∀ name, name ≠ EmptyString → name_chars name = [] →
      clean_file_name (Some name) = ".html".
Proof.
  split_and!; [done..|]. intros name Hname Hnone.
  replace (clean_file_name (Some name))
    with (strip (sub_spaces (replace_char "034" (replace_char "/" name))) +:+ ".html")
    by (by destruct name).
  unfold strip. rewrite lstrip_all_spaces; [done|].
  intros c Hc.
  apply sub_spaces_from_chars in Hc as [->|[Hc Hspace]]; [done|].
  apply replace_char_chars in Hc as [->|[Hc Hquote]]; [done|].
  apply replace_char_chars in Hc as [->|[Hc Hslash]]; [done|].
  exfalso.
  assert (c ∈ name_chars name) as Hin;
    [|by rewrite Hnone in Hin; apply elem_of_nil in Hin].
  unfold name_chars. apply list_elem_of_filter. split; [|done].
  unfold is_name_char. rewrite Hspace. simpl.
  destruct (Ascii.eqb_spec c "/"); [done|].
  by destruct (Ascii.eqb_spec c "034").
Qed.

(** ** The theorems at work *)

Example clean_file_name_carbon_shaft :
  clean_file_name (Some " Carbon  Shaft/Arrow ") = "Carbon Shaft Arrow.html"
  ∧ ScraperData.clean_file_name (Some " Carbon  Shaft/Arrow ")
    = Ok " Carbon Shaft Arrow .html".
Proof. done. Qed.

Lemma clean_file_name_tidy_carbon_shaft :
  ∃ stem,
    clean_file_name (Some " Carbon  Shaft/Arrow ") = stem +:+ ".html"
    ∧ (∀ c, c ∈ String.list_ascii_of_string stem →
         c ≠ "/"%char ∧ c ≠ "034"%char ∧ (is_space c = true → c = " "%char))
    ∧ strip stem = stem
    ∧ sub_spaces stem = stem
    ∧ name_chars stem = name_chars " Carbon  Shaft/Arrow ".
Proof. apply (clean_file_name_tidy " Carbon  Shaft/Arrow "). done. Defined.

Lemma scraper_clean_file_name_keeps_outer_space_carbon_shaft :
  ∃ stem,
    ScraperData.clean_file_name (Some " Carbon  Shaft/Arrow ") = Ok (stem +:+ ".html")
    ∧ (∀ c, c ∈ String.list_ascii_of_string stem →
         c ≠ "/"%char ∧ c ≠ "034"%char ∧ (is_space c = true → c = " "%char))
    ∧ sub_spaces stem = stem
    ∧ name_chars stem = name_chars " Carbon  Shaft/Arrow "
    ∧ (" Carbon  Shaft/Arrow " ≠ EmptyString →
       clean_file_name (Some " Carbon  Shaft/Arrow ") = strip stem +:+ ".html").
Proof.
  apply (proj2 scraper_clean_file_name_keeps_outer_space " Carbon  Shaft/Arrow ").
Defined.

Lemma clean_file_name_without_name_slash :
  clean_file_name (Some " / ") = ".html".
Proof.
  apply (proj2 (proj2 clean_file_name_without_name) " / "); [done|reflexivity].
Defined.

Lemma rename_columns_renames_rampage :
  length (rename_columns [rampage_record] column_mapping) = 1%nat
  ∧ ∀ i item, [rampage_record] !! i = Some item →
      ∃ new_item,
        rename_columns [rampage_record] column_mapping !! i = Some new_item
        ∧ (∀ old_key new_key, (old_key, new_key) ∈ column_mapping →
             new_item !! new_key = Some (default (VStr "") (item !! old_key))
             ∧ new_item !! old_key = None)
        ∧ (∀ k, k ∉ column_mapping.*1 → k ∉ column_mapping.*2 →
             new_item !! k = item !! k).
Proof.
  apply (rename_columns_renames [rampage_record] column_mapping).
  - apply (bool_decide_unpack _). by vm_compute.
  - apply (bool_decide_unpack _). by vm_compute.
  - apply Forall_forall. apply (bool_decide_unpack _). by vm_compute.
Defined.

Lemma scraper_rename_columns_skips_missing_rampage :
  length (ScraperData.rename_columns [rampage_record] ScraperData.update_output_columns)
  = 1%nat
  ∧ ∀ i item, [rampage_record] !! i = Some item →
      ∃ new_item,
        ScraperData.rename_columns [rampage_record] ScraperData.update_output_columns !! i
        = Some new_item
        ∧ (∀ old_name new_name,
             (old_name, new_name) ∈ ScraperData.update_output_columns →
             new_item !! new_name
             = from_option Some (item !! new_name) (item !! old_name)
             ∧ new_item !! old_name = None)
        ∧ (∀ k, k ∉ ScraperData.update_output_columns.*1 →
                k ∉ ScraperData.update_output_columns.*2 →
                new_item !! k = item !! k).
Proof.
  apply (scraper_rename_columns_skips_missing [rampage_record]
           ScraperData.update_output_columns).
  - apply (bool_decide_unpack _). by vm_compute.
  - apply (bool_decide_unpack _). by vm_compute.
  - apply Forall_forall. apply (bool_decide_unpack _). by vm_compute.
Defined.

Lemma update_output_keeps_stock_columns_rampage :
  let new_item :=
    foldl ScraperData.rename_column rampage_record ScraperData.update_output_columns in
  new_item !! "Current stock" = rampage_record !! "Current stock"
  ∧ new_item !! "Previous stock" = rampage_record !! "Previous stock"
  ∧ new_item !! "Current Stock" = rampage_record !! "Current Stock"
  ∧ new_item !! "Previous Stock" = rampage_record !! "Previous Stock"
  ∧ new_item !! "Product Name"
    = from_option Some (rampage_record !! "Product Name")
        (rampage_record !! "product_name").
Proof.
  apply (update_output_keeps_stock_columns rampage_record); by vm_compute.
Defined.

Example update_output_renames_the_name_only :
  let new_item :=
    foldl ScraperData.rename_column rampage_record ScraperData.update_output_columns in
  new_item !! "Product Name" = Some (VStr "Rampage")
  ∧ new_item !! "Current stock" = Some (VInt 6)
  ∧ new_item !! "Current Stock" = None.
Proof. by vm_compute. Qed.

Lemma standardize_data_summary_two_records :
  let data := [rampage_record; ∅] in
  (standardize_data data = None
   ↔ ∃ product_item,
       product_item ∈ data ∧ ¬ is_int (current_stock product_item))
  ∧ ∀ sd, standardize_data data = Some sd →
      ∃ s, summary_of sd = Some s
           ∧ total_products s = length data
           ∧ length (out_of_stocks_products sd) = out_of_stock_count s
           ∧ length (in_stocks_products sd) = in_stock_count s
           ∧ length (more_5_stocks_products sd) = well_stocked_count s
           ∧ length (only_1_stocks_products sd) = low_stock_count s
           ∧ (out_of_stock_count s + in_stock_count s ≤ total_products s)%nat
           ∧ (low_stock_count s + well_stocked_count s ≤ in_stock_count s)%nat
           ∧ ((∀ product_item n, product_item ∈ data →
                 current_stock product_item = VInt n → 0 ≤ n) →
              (out_of_stock_count s + in_stock_count s = total_products s)%nat).
Proof.
  intros data. apply (proj2 (standardize_data_summary data)). done.
Defined.

Example standardize_data_two_records :
  summary_of <$> standardize_data [rampage_record; ∅]
  = Some (Some (Summary 2 1 1 0 1))
  ∧ standardize_data [<["Current stock" := VStr "6"]> ∅] = None.
Proof. by vm_compute. Qed.

End DataManipulationFacts.

(* ===================================================================== *)
(** * Properties of [reshape_description] of [scraper.py]                 *)
(* ===================================================================== *)

Module DescriptionFacts.
Import DataManipulation DataManipulationFacts TextFacts ScraperData.

Lemma contains_char_elem c s :
  Text.contains (String c EmptyString) s = true ↔ c ∈ String.list_ascii_of_string s.
Proof.
  induction s as [|d s IH]; [by split; [|intros ?%elem_of_nil]|].
  rewrite contains_char, orb_true_iff, bool_decide_eq_true, IH. simpl.
  rewrite elem_of_cons. naive_solver.
Qed.

Lemma contains_char_false c s :
  Text.contains (String c EmptyString) s = false ↔ c ∉ String.list_ascii_of_string s.
Proof. rewrite <-contains_char_elem. by destruct (Text.contains _ s). Qed.

Lemma chars_app s t :
  String.list_ascii_of_string (s +:+ t)
  = String.list_ascii_of_string s ++ String.list_ascii_of_string t.
Proof.
  induction s as [|c s IH]; [done|]. change (String c s +:+ t) with (String c (s +:+ t)).
  simpl. by rewrite IH.
Qed.

Lemma no_gt_tag_free s : Text.contains ">" s = false → tag_free s = true.
Proof.
  induction s as [|c s IH]; [done|].
  rewrite contains_char. intros [Hc Hs]%orb_false_iff. simpl.
  rewrite Hs, (IH Hs). simpl. by rewrite orb_true_r.
Qed.

Lemma tag_free_app_no_lt s t :
  Text.contains "<" s = false → tag_free t = true → tag_free (s +:+ t) = true.
Proof.
  induction s as [|c s IH]; [done|].
  rewrite contains_char. intros [Hc Hs]%orb_false_iff Ht.
  apply bool_decide_eq_false in Hc. simpl. rewrite (IH Hs Ht), andb_true_r.
  destruct (Ascii.eqb_spec c "<"); by subst.
Qed.

Lemma append_cons c s t : String c s +:+ t = String c (s +:+ t).
Proof. done. Qed.

Lemma append_empty_r s : s +:+ EmptyString = s.
Proof. induction s as [|c s IH]; [done|]. by rewrite append_cons, IH. Qed.

Lemma append_snoc s c t : (s +:+ String c EmptyString) +:+ t = s +:+ String c t.
Proof. induction s as [|d s IH]; [done|]. by rewrite !append_cons, IH. Qed.

(** Without a [>] ahead nothing is removed. *)
Lemma strip_tags_from_no_gt s : ∀ read,
  Text.contains ">" s = false →
  strip_tags_from (Some read) s = read +:+ s.
Proof.
  induction s as [|c s IH]; intros read.
  - intros _. simpl. by rewrite append_empty_r.
  - rewrite contains_char. intros [Hc Hs]%orb_false_iff.
    apply bool_decide_eq_false in Hc. simpl.
    destruct (Ascii.eqb_spec c ">") as [->|_]; [done|].
    by rewrite IH, append_snoc by done.
Qed.

Lemma strip_tags_from_tag_free s :
  tag_free s = true → strip_tags_from None s = s.
Proof.
  induction s as [|c s IH]; [done|]. simpl.
  intros [Hc Hs]%andb_true_iff. specialize (IH Hs).
  destruct (Ascii.eqb_spec c "<") as [->|_]; [|by rewrite IH].
  simpl in Hc. apply orb_true_iff in Hc as [Hc|Hc].
  - destruct s as [|d s]; [done|]. simpl in Hc.
    apply Ascii.eqb_eq in Hc as ->. simpl in IH |- *.
    injection IH as ->. done.
  - apply negb_true_iff in Hc. by rewrite strip_tags_from_no_gt.
Qed.

Lemma tag_free_strip_tags_from s : ∀ tag,
  (∀ read, tag = Some read → Text.contains ">" read = false) →
  tag_free (strip_tags_from tag s) = true.
Proof.
  induction s as [|c s IH]; intros tag Htag.
  - destruct tag as [read|]; [|done]. simpl. apply no_gt_tag_free. by apply Htag.
  - simpl. destruct tag as [read|].
    + specialize (Htag read eq_refl).
      destruct (Ascii.eqb_spec c ">") as [->|Hc].
      * destruct read as [|r [|r' read]]; [by apply IH| |by apply IH].
        simpl. rewrite (IH None) by done. simpl. by rewrite orb_true_r.
      * apply IH. intros ? [= <-].
        apply contains_char_false. rewrite chars_app. simpl.
        apply contains_char_false in Htag. set_solver.
    + destruct (Ascii.eqb_spec c "<") as [->|Hc].
      * apply IH. by intros ? [= <-].
      * simpl. rewrite (IH None) by done. rewrite andb_true_r.
        by destruct (Ascii.eqb_spec c "<").
Qed.

Lemma tag_free_tail c s : tag_free (String c s) = true → tag_free s = true.
Proof. simpl. by intros [_ ?]%andb_true_iff. Qed.

Lemma tag_free_lstrip s : tag_free s = true → tag_free (lstrip s) = true.
Proof.
  induction s as [|c s IH]; [done|]. intros Hs. simpl.
  destruct (is_space c); [|done]. by apply IH, (tag_free_tail c).
Qed.

Lemma prefix_gt_rstrip s :
  starts_with ">" s = true → starts_with ">" (rstrip s) = true.
Proof.
  destruct s as [|d s]; [done|]. simpl.
  intros ->%Ascii.eqb_eq. by destruct (rstrip s).
Qed.

Lemma no_gt_rstrip s :
  Text.contains ">" s = false → Text.contains ">" (rstrip s) = false.
Proof.
  rewrite !contains_char_false. intros Hs Hin. by apply Hs, rstrip_chars.
Qed.

Lemma tag_free_cons c s :
  tag_free (String c s)
  = (negb (Ascii.eqb c "<") || starts_with ">" s || negb (Text.contains ">" s))
    && tag_free s.
Proof. done. Qed.

Lemma tag_free_rstrip s : tag_free s = true → tag_free (rstrip s) = true.
Proof.
  induction s as [|c s IH]; [done|].
  rewrite tag_free_cons. intros [Hc Hs]%andb_true_iff. specialize (IH Hs).
  cbn [rstrip]. destruct (rstrip s) as [|e r] eqn:Hr.
  - destruct (is_space c); [done|]. rewrite tag_free_cons.
    by rewrite !orb_true_r.
  - rewrite tag_free_cons, IH, andb_true_r.
    apply orb_true_iff in Hc as [Hc|Hc].
    + apply orb_true_iff in Hc as [Hc|Hc]; [by rewrite Hc|].
      apply prefix_gt_rstrip in Hc. rewrite Hr in Hc. by rewrite Hc, orb_true_r.
    + apply negb_true_iff, no_gt_rstrip in Hc. rewrite Hr in Hc.
      by rewrite Hc, orb_true_r.
Qed.

Lemma prefix_gt_sub_spaces s :
  starts_with ">" s = true → starts_with ">" (sub_spaces_from false s) = true.
Proof.
  destruct s as [|d s]; [done|]. simpl. by intros ->%Ascii.eqb_eq.
Qed.

Lemma no_gt_sub_spaces b s :
  Text.contains ">" s = false → Text.contains ">" (sub_spaces_from b s) = false.
Proof.
  rewrite !contains_char_false. intros Hs Hin.
  by apply sub_spaces_from_chars in Hin as [?|[? _]].
Qed.

Lemma tag_free_sub_spaces s : ∀ b,
  tag_free s = true → tag_free (sub_spaces_from b s) = true.
Proof.
  induction s as [|c s IH]; intros b; [done|].
  rewrite tag_free_cons. intros [Hc Hs]%andb_true_iff. cbn [sub_spaces_from].
  destruct (is_space c) eqn:Hspace.
  - destruct b; [by apply IH|]. rewrite tag_free_cons, (IH true Hs). done.
  - rewrite tag_free_cons, (IH false Hs), andb_true_r.
    apply orb_true_iff in Hc as [Hc|Hc].
    + apply orb_true_iff in Hc as [Hc|Hc]; [by rewrite Hc|].
      by rewrite (prefix_gt_sub_spaces _ Hc), orb_true_r.
    + apply negb_true_iff in Hc. by rewrite (no_gt_sub_spaces _ _ Hc), orb_true_r.
Qed.

(** X21.  For a record whose description is a non-empty string,
    [reshape_description] returns a text in which no tag is left (removing
    tags again changes nothing), which has no white space at its ends and
    only single spaces inside; reshaping the result again gives the same
    text.  A description without any [<] only has its white space
    normalised. *)
Theorem reshape_description_leaves_no_tag (product_item : gmap string value)
    (text : string) :
  product_item !! "Description" = Some (VStr text) → text ≠ EmptyString →
  ∃ r, reshape_description product_item = Some (VStr r)
       ∧ strip_tags r = r
       ∧ strip r = r
       ∧ sub_spaces r = r
       ∧ reshape_description (<["Description" := VStr r]> product_item)
         = Some (VStr r)
       ∧ (Text.contains "<" text = false → r = strip (sub_spaces text)).
Proof.
  intros Hd Htext. set (r := strip (sub_spaces (strip_tags text))).
  assert (strip_tags r = r) as Htags.
  { apply strip_tags_from_tag_free. unfold r, strip.
    apply tag_free_rstrip, tag_free_lstrip, tag_free_sub_spaces.
    by apply tag_free_strip_tags_from. }
  assert (strip r = r) as Hstrip by apply strip_idemp.
  assert (sub_spaces r = r) as Hsub.
  { apply sub_spaces_from_squeezed. unfold r, strip.
    apply squeezed_rstrip. eapply squeezed_lstrip. apply squeezed_sub_spaces_from. }
  exists r. split_and!; try done.
  - unfold reshape_description. rewrite Hd. simpl. by destruct text.
  - unfold reshape_description. rewrite lookup_insert_eq. simpl.
    destruct r eqn:Hr; [done|]. rewrite <-Hr in *. by rewrite Htags, Hsub, Hstrip.
  - intros Hlt. unfold r. f_equal. f_equal. apply strip_tags_from_tag_free.
    clear -Hlt. induction text as [|c text IH]; [done|].
    rewrite contains_char in Hlt. apply orb_false_iff in Hlt as [Hc Hlt].
    apply bool_decide_eq_false in Hc. simpl. rewrite (IH Hlt), andb_true_r.
    destruct (Ascii.eqb_spec c "<"); by subst.
Qed.

Example strip_tags_examples :
  strip_tags "<b>bold</b> text" = "bold text"
  ∧ strip_tags "a <> b" = "a <> b"
  ∧ strip_tags "x < y and y > z" = "x  z"
  ∧ strip_tags "<<>>" = ">"
  ∧ strip_tags "tail <" = "tail <".
Proof. done. Qed.

Lemma reshape_description_leaves_no_tag_carbon :
  let product_item : gmap string value :=
    <["Description" := VStr "<p>Carbon  <b>arrow</b>, 5 < 6 </p>"]> ∅ in
  ∃ r, reshape_description product_item = Some (VStr r)
       ∧ strip_tags r = r
       ∧ strip r = r
       ∧ sub_spaces r = r
       ∧ reshape_description (<["Description" := VStr r]> product_item)
         = Some (VStr r)
       ∧ (Text.contains "<" "<p>Carbon  <b>arrow</b>, 5 < 6 </p>" = false →
          r = strip (sub_spaces "<p>Carbon  <b>arrow</b>, 5 < 6 </p>")).
Proof.
  intros product_item.
  apply (reshape_description_leaves_no_tag product_item
           "<p>Carbon  <b>arrow</b>, 5 < 6 </p>"); by vm_compute.
Defined.

Example reshape_description_carbon :
  reshape_description
    (<["Description" := VStr "<p>Carbon  <b>arrow</b>, 5 < 6 </p>"]> ∅)
  = Some (VStr "Carbon arrow, 5").
Proof. by vm_compute. Qed.

End DescriptionFacts.

(* ===================================================================== *)
(** * Running the monad                                                   *)
(* ===================================================================== *)

Module EffFacts.
Section facts.
Context {S : Type}.

Lemma bind_return {A B} (m : M S A) (k : A → M S B) s a s' :
  m s = (Return a, s') → bind m k s = k a s'.
Proof. unfold bind. by intros ->. Qed.

Lemma bind_raise {A B} (m : M S A) (k : A → M S B) s e s' :
  m s = (Raise e, s') → bind m k s = (Raise e, s').
Proof. unfold bind. by intros ->. Qed.

Lemma bind_out_of_fuel {A B} (m : M S A) (k : A → M S B) s s' :
  m s = (OutOfFuel, s') → bind m k s = (OutOfFuel, s').
Proof. unfold bind. by intros ->. Qed.

Lemma await_ok {A} (op : S → reply A * S) s a s' :
  op s = (Ok a, s') → await op s = (Return a, s').
Proof. unfold await. by intros ->. Qed.

Lemma await_fails {A} (op : S → reply A * S) s e s' :
  op s = (Fails e, s') → await op s = (Raise e, s').
Proof. unfold await. by intros ->. Qed.


Lemma try_except_caught {A} (body : M S A) handler s e s' h :
  body s = (Raise e, s') → handler e = Some h →
  try_except body handler s = h s'.
Proof. unfold try_except. by intros -> ->. Qed.

Lemma try_except_out_of_fuel {A} (body : M S A) handler s s' :
  body s = (OutOfFuel, s') → try_except body handler s = (OutOfFuel, s').
Proof. unfold try_except. by intros ->. Qed.


(** ** Closure of [respects], [no_raise] and [finishes] *)

Lemma respects_ret (R : relation S) `{!Reflexive R} {A} (a : A) :
  respects R (ret a).
Proof. by intros s. Qed.

Lemma respects_raise (R : relation S) `{!Reflexive R} {A} e :
  respects R (raise (A:=A) e).
Proof. by intros s. Qed.

Lemma respects_get (R : relation S) `{!Reflexive R} : respects R get.
Proof. by intros s. Qed.

Lemma respects_modify (R : relation S) f :
  (∀ s, R s (f s)) → respects R (modify f).
Proof. intros Hf s. apply Hf. Qed.

Lemma respects_bind (R : relation S) `{!Transitive R} {A B}
    (m : M S A) (k : A → M S B) :
  respects R m → (∀ a, respects R (k a)) → respects R (bind m k).
Proof.
  intros Hm Hk s. specialize (Hm s). unfold bind.
  destruct (m s) as [[a|e|] s']; simpl in *; [|done..].
  etrans; [done|]. apply Hk.
Qed.

Lemma respects_try_except (R : relation S) `{!Transitive R} {A}
    (body : M S A) handler :
  respects R body → (∀ e h, handler e = Some h → respects R h) →
  respects R (try_except body handler).
Proof.
  intros Hbody Hh s. specialize (Hbody s). unfold try_except.
  destruct (body s) as [[a|e|] s']; simpl in *; [done| |done].
  destruct (handler e) as [h|] eqn:He; [|done].
  etrans; [done|]. by eapply Hh.
Qed.

Lemma respects_try_finally (R : relation S) `{!Transitive R} {A}
    (body : M S A) cleanup :
  respects R body → respects R cleanup → respects R (try_finally body cleanup).
Proof.
  intros Hbody Hc s. specialize (Hbody s). unfold try_finally.
  destruct (body s) as [[a|e|] s']; simpl in *; [| |done];
    specialize (Hc s'); destruct (cleanup s') as [[?|?|] s'']; simpl in *;
    by etrans.
Qed.

Lemma respects_for_each (R : relation S) `{!PreOrder R} {X}
    (xs : list X) (body : X → M S unit) :
  (∀ x, respects R (body x)) → respects R (for_each xs body).
Proof.
  intros Hbody. induction xs as [|x xs IH]; simpl.
  - apply respects_ret, _.
  - apply respects_bind; [apply _|done..].
Qed.

Lemma respects_map_each (R : relation S) `{!PreOrder R} {X Y}
    (xs : list X) (f : X → M S Y) :
  (∀ x, respects R (f x)) → respects R (map_each xs f).
Proof.
  intros Hf. induction xs as [|x xs IH]; simpl.
  - apply respects_ret, _.
  - apply respects_bind; [apply _|done|]. intros y.
    apply respects_bind; [apply _|done|]. intros ys. apply respects_ret, _.
Qed.

Lemma no_raise_ret {A} (a : A) : no_raise (S:=S) (ret a).
Proof. by intros s e. Qed.

Lemma no_raise_modify f : no_raise (S:=S) (modify f).
Proof. by intros s e. Qed.

Lemma no_raise_bind {A B} (m : M S A) (k : A → M S B) :
  no_raise m → (∀ a, no_raise (k a)) → no_raise (bind m k).
Proof.
  intros Hm Hk s e. specialize (Hm s). unfold bind.
  destruct (m s) as [[a|e'|] s']; simpl in *; [apply Hk|by destruct (Hm e')|done].
Qed.

Lemma no_raise_try_except_all {A} (body : M S A) (h : exn → M S A) :
  (∀ e, no_raise (h e)) → no_raise (try_except body (λ e, Some (h e))).
Proof.
  intros Hh s e. unfold try_except.
  destruct (body s) as [[a|e'|] s']; simpl; [done|apply Hh|done].
Qed.

Lemma no_raise_try_finally {A} (body : M S A) cleanup :
  no_raise body → no_raise cleanup → no_raise (try_finally body cleanup).
Proof.
  intros Hbody Hc s e. specialize (Hbody s). unfold try_finally.
  destruct (body s) as [[a|e'|] s']; simpl in *; [| |done];
    specialize (Hc s'); destruct (cleanup s') as [[?|e''|] s'']; simpl in *;
    try done; try (by destruct (Hc e'')); by destruct (Hbody e').
Qed.

Lemma no_raise_for_each {X} (xs : list X) (body : X → M S unit) :
  (∀ x, no_raise (body x)) → no_raise (for_each xs body).
Proof.
  intros Hbody. induction xs as [|x xs IH]; simpl.
  - apply no_raise_ret.
  - by apply no_raise_bind.
Qed.

Lemma finishes_ret {A} (a : A) : finishes (S:=S) (ret a).
Proof. by intros s. Qed.

Lemma finishes_raise {A} e : finishes (S:=S) (raise (A:=A) e).
Proof. by intros s. Qed.

Lemma finishes_get : finishes (S:=S) get.
Proof. by intros s. Qed.

Lemma finishes_modify f : finishes (S:=S) (modify f).
Proof. by intros s. Qed.

Lemma finishes_await {A} (op : S → reply A * S) : finishes (await op).
Proof. intros s. unfold await. by destruct (op s) as [[?|?] ?]. Qed.

Lemma finishes_bind {A B} (m : M S A) (k : A → M S B) :
  finishes m → (∀ a, finishes (k a)) → finishes (bind m k).
Proof.
  intros Hm Hk s. specialize (Hm s). unfold bind.
  destruct (m s) as [[a|e'|] s']; simpl in *; [apply Hk|done..].
Qed.

Lemma finishes_try_except {A} (body : M S A) handler :
  finishes body → (∀ e h, handler e = Some h → finishes h) →
  finishes (try_except body handler).
Proof.
  intros Hbody Hh s. specialize (Hbody s). unfold try_except.
  destruct (body s) as [[a|e|] s']; simpl in *; [done| |done].
  destruct (handler e) as [h|] eqn:He; [|done]. by eapply Hh.
Qed.

Lemma finishes_try_finally {A} (body : M S A) cleanup :
  finishes body → finishes cleanup → finishes (try_finally body cleanup).
Proof.
  intros Hbody Hc s. specialize (Hbody s). unfold try_finally.
  destruct (body s) as [[a|e'|] s']; simpl in *; [| |done];
    specialize (Hc s'); by destruct (cleanup s') as [[?|?|] s''].
Qed.

Lemma finishes_for_each {X} (xs : list X) (body : X → M S unit) :
  (∀ x, finishes (body x)) → finishes (for_each xs body).
Proof.
  intros Hbody. induction xs as [|x xs IH]; simpl.
  - apply finishes_ret.
  - by apply finishes_bind.
Qed.

Lemma finishes_map_each {X Y} (xs : list X) (f : X → M S Y) :
  (∀ x, finishes (f x)) → finishes (map_each xs f).
Proof.
  intros Hf. induction xs as [|x xs IH]; simpl.
  - apply finishes_ret.
  - apply finishes_bind; [done|]. intros y.
    apply finishes_bind; [done|]. intros ys. apply finishes_ret.
Qed.

End facts.

Lemma respects_on_page {P A} (R : relation (world P)) (m : M P A) :
  (∀ w p, R w (set_browser p w)) → respects R (on_page m).
Proof.
  intros HR w. unfold on_page, zoom. destruct (m (browser w)). apply HR.
Qed.

Lemma finishes_on_page {P A} (m : M P A) : finishes m → finishes (on_page m).
Proof.
  intros Hm w. unfold on_page, zoom. specialize (Hm (browser w)).
  by destruct (m (browser w)).
Qed.

Lemma no_raise_on_page_await {P A} (op : P → reply A * P) (a : A) :
  (∀ p, (op p).1 = Ok a) → no_raise (on_page (await op)).
Proof.
  intros Hop w e. unfold on_page, zoom, await. specialize (Hop (browser w)).
  destruct (op (browser w)) as [[?|?] ?]; simpl in *; by simplify_eq.
Qed.

Lemma on_page_run {P A} (m : M P A) (w : world P) :
  on_page m w = ((m (browser w)).1, set_browser (m (browser w)).2 w).
Proof. unfold on_page, zoom. by destruct (m (browser w)). Qed.

Lemma on_page_eq {P A} (m : M P A) (w : world P) o p' :
  m (browser w) = (o, p') → on_page m w = (o, set_browser p' w).
Proof. rewrite on_page_run. by intros ->. Qed.

End EffFacts.

(* ===================================================================== *)
(** * Properties of [utils/playwright_utils.py]                           *)
(* ===================================================================== *)

Module PlaywrightFacts.
Import Combinations PlaywrightUtils EffFacts TextFacts.


Lemma length_handled_flags url data :
  length (handled_flags url data) = length data.
Proof. unfold handled_flags. apply length_fmap. Qed.

Section with_agent.
Context {P : Type} `{PageAgent P}.

(** One round of the click loop, by what the click does. *)
Lemma click_loop_clicked fuel count (p p' : P) :
  click_add_to_cart p = (Ok tt, p') →
  click_add_to_cart_until_done (S fuel) count p = (Return tt, p').
Proof. intros Hc. simpl. unfold try_except, await. by rewrite Hc. Qed.

Lemma click_loop_timeout fuel count (p p' : P) :
  click_add_to_cart p = (Fails TimeoutError, p') →
  click_add_to_cart_until_done (S fuel) count p
  = if (count + 1) `mod` 5 =? 0
    then (await reload ;; click_add_to_cart_until_done fuel (count + 1)) p'
    else click_add_to_cart_until_done fuel (count + 1) p'.
Proof.
  intros Hc. simpl. unfold try_except, await at 1. rewrite Hc.
  by destruct ((count + 1) `mod` 5 =? 0).
Qed.

Lemma click_loop_error fuel count (p p' : P) e :
  click_add_to_cart p = (Fails e, p') → e ≠ TimeoutError →
  click_add_to_cart_until_done (S fuel) count p = (Raise e, p').
Proof.
  intros Hc He. simpl. unfold try_except, await. rewrite Hc. by destruct e.
Qed.

(** ** More fuel does not change a run that ended *)

Lemma click_loop_more_fuel : ∀ fuel fuel' count (p : P),
  (fuel ≤ fuel')%nat →
  (click_add_to_cart_until_done fuel count p).1 ≠ OutOfFuel →
  click_add_to_cart_until_done fuel' count p
  = click_add_to_cart_until_done fuel count p.
Proof.
  induction fuel as [|fuel IH]; intros fuel' count p Hle Hend; [done|].
  destruct fuel' as [|fuel']; [lia|].
  destruct (click_add_to_cart p) as [[[]|e] p1] eqn:Hclick.
  - by rewrite (click_loop_clicked fuel _ _ _ Hclick),
       (click_loop_clicked fuel' _ _ _ Hclick).
  - destruct (decide (e = TimeoutError)) as [->|He].
    + rewrite (click_loop_timeout fuel _ _ _ Hclick) in Hend |- *.
      rewrite (click_loop_timeout fuel' _ _ _ Hclick).
      destruct ((count + 1) `mod` 5 =? 0).
      * unfold bind in Hend |- *. destruct (await reload p1) as [[[]|?|] p2]; [|done..].
        apply IH; [lia|done].
      * apply IH; [lia|done].
    + by rewrite (click_loop_error fuel _ _ _ _ Hclick He),
         (click_loop_error fuel' _ _ _ _ Hclick He).
Qed.

Lemma try_inventory_quantity_more_fuel fuel fuel' check_value (p : P) :
  (fuel ≤ fuel')%nat →
  (try_inventory_quantity fuel check_value p).1 ≠ OutOfFuel →
  try_inventory_quantity fuel' check_value p
  = try_inventory_quantity fuel check_value p.
Proof.
  intros Hle Hend.
  unfold try_inventory_quantity, cart_interaction, try_except, bind in Hend |- *.
  destruct (await (fill_qty check_value) p) as [[[]|?|] p1]; [|done..].
  destruct (click_add_to_cart_until_done fuel 0 p1) as [[[]|?|] p2] eqn:Hloop;
    [| |done];
    by rewrite (click_loop_more_fuel fuel fuel'), Hloop by (by rewrite ?Hloop).
Qed.

Lemma probe_loop_more_fuel : ∀ fuel fuel' inventory try_count check_value (p : P),
  (fuel ≤ fuel')%nat →
  (probe_loop fuel inventory try_count check_value p).1 ≠ OutOfFuel →
  probe_loop fuel' inventory try_count check_value p
  = probe_loop fuel inventory try_count check_value p.
Proof.
  induction fuel as [|fuel IH];
    intros fuel' inventory try_count check_value p Hle Hend; [done|].
  destruct fuel' as [|fuel']; [lia|]. simpl in Hend |- *.
  destruct (if 10 <? try_count + 1 then (check_value + 50000, -100000)
            else (check_value, try_count + 1)) as [v tc].
  unfold bind in Hend |- *.
  destruct (try_inventory_quantity fuel v p) as [[a| |] p1] eqn:Htry;
    [| |done]; rewrite (try_inventory_quantity_more_fuel fuel fuel'), Htry
      by (lia || by rewrite Htry); [|done].
  destruct ((_ =? 1) && negb a); [done|]. apply IH; [lia|done].
Qed.

Lemma get_inventory_value_more_fuel fuel fuel' check_value (p : P) :
  (fuel ≤ fuel')%nat →
  (get_inventory_value fuel check_value p).1 ≠ OutOfFuel →
  get_inventory_value fuel' check_value p = get_inventory_value fuel check_value p.
Proof.
  intros Hle. unfold get_inventory_value, bind.
  destruct (check_out_of_stock p) as [[[]| |] p1]; try done.
  by apply probe_loop_more_fuel.
Qed.


(** C5, as the code has it.  [check_handled_url] compares the number of
    attribute combinations of the page with the length of the list of
    comparison results, and that length is the number of stored records,
    whether or not any of them matches the page. *)
Theorem check_handled_url_compares_lengths (data : list item) (p p' : P)
    (attrs_dict : list (handle * list string)) :
  get_options_dict p = (Return attrs_dict, p') →
  length (handled_flags (page_url p') data) = length data
  ∧ check_handled_url data p
    = (Return (length (get_all_combinations (attrs_dict.*2)) =? length data)%nat, p').
Proof.
  intros Hopts. split; [apply length_handled_flags|].
  unfold check_handled_url. rewrite (bind_return _ _ _ _ _ Hopts).
  unfold bind, get, ret. by rewrite length_handled_flags.
Qed.

(** A merge that no other task interrupts: merging the URLs of a page into
    [products_urls.pkl] a second time leaves the file as the first merge
    left it, and the merge keeps every URL the file held before. *)
Lemma merge_products_urls_idempotent (new_urls : list string) (w : world P) :
  let w1 := (merge_products_urls new_urls w).2 in
  let w2 := (merge_products_urls new_urls w1).2 in
  products_urls_pkl w2 = products_urls_pkl w1
  ∧ known_products_urls w2 = known_products_urls w1
  ∧ known_products_urls w ⊆ known_products_urls w1
  ∧ known_products_urls w1 = known_products_urls w ∪ list_to_set new_urls.
Proof.
  unfold merge_products_urls, dump_products_urls, load_products_urls,
    known_products_urls.
  simpl. split_and!; [f_equal|..]; set_solver.
Qed.

(** The page loop reads the file (line 248) before it awaits the page's
    links (line 249) and writes it afterwards (line 251).  When two listing
    tasks have both read the file before either writes it, the second
    write drops what the first one added.  [gather_with_concurrency] as
    modelled here never schedules tasks that way; the event loop can. *)
Lemma dumps_after_the_same_load (a b : list string) (w : world P) :
  let read := known_products_urls w in
  let w' := ((dump_products_urls read a ;; dump_products_urls read b) w).2 in
  known_products_urls w' = read ∪ list_to_set b.
Proof. done. Qed.

(** Two merges that both load before either dumps: after the first dump
    the file holds what was loaded and the first page's URLs, after the
    second what was loaded and the second page's URLs. *)
Lemma interleaved_merges_file (a b : list string) (w : world P) :
  let r := interleaved_merges a b w in
  r.1 = Return (known_products_urls w ∪ list_to_set a)
  ∧ known_products_urls r.2 = known_products_urls w ∪ list_to_set b.
Proof. done. Qed.

(** C4, as the code has it.  Without a select on the page there is one
    combination, the empty one, but [inventory_identifier] raises
    [NotImplementedError] before it enumerates anything: nothing is probed
    or added to [data], and [handle_url] records the URL as failed.  A
    select without options leaves no combination at all, and
    [inventory_identifier] returns 0 with [data] as it was. *)
Theorem inventory_identifier_without_combinations (fuel : nat) :
  get_all_combinations (A:=string) [] = [[]]
  ∧ (∀ axes : list (list string), [] ∈ axes → get_all_combinations axes = [])
  ∧ (∀ primary_item guess (w : world P) p',
       get_options_dict (browser w) = (Return [], p') →
       inventory_identifier fuel primary_item guess w
       = (Raise NotImplementedError, set_browser p' w))
  ∧ (∀ url primary_item (w : world P) p',
       get_options_dict (browser w) = (Return [], p') →
       ∃ w', identify_or_fail fuel url primary_item w = (Return tt, w')
             ∧ failed_urls w' = {[url]} ∪ failed_urls w
             ∧ data w' = data w)
  ∧ (∀ primary_item guess (w : world P) attrs_dict p',
       get_options_dict (browser w) = (Return attrs_dict, p') →
       attrs_dict ≠ [] → [] ∈ attrs_dict.*2 →
       inventory_identifier fuel primary_item guess w
       = (Return 0, set_browser p' w)).
Proof.
  assert (∀ primary_item guess (w : world P) p',
            get_options_dict (browser w) = (Return [], p') →
            inventory_identifier fuel primary_item guess w
            = (Raise NotImplementedError, set_browser p' w)) as Hnone.
  { intros primary_item guess w p' Hopts. unfold inventory_identifier.
    by erewrite bind_return; [|by apply on_page_eq]. }
  split_and!; [done| |done| |].
  - intros axes Hin. unfold get_all_combinations.
    rewrite CombinationsFacts.product_nested.
    by apply CombinationsFacts.nested_iteration_empty_axis.
  - intros url primary_item w p' Hopts.
    exists (set_failed_urls_pkl (Some ({[url]} ∪ failed_urls w))
              (set_failed_urls ({[url]} ∪ failed_urls w) (set_browser p' w))).
    split; [|done]. unfold identify_or_fail.
    rewrite (try_except_caught _ _ w NotImplementedError (set_browser p' w)
               (add_failed_url url ;; dump_failed_urls)); [done| |done].
    erewrite bind_raise; [done|]. by apply Hnone.
  - intros primary_item guess w attrs_dict p' Hopts Hne Hempty.
    unfold inventory_identifier.
    erewrite bind_return; [|by apply on_page_eq].
    destruct attrs_dict as [|kv attrs_dict]; [done|].
    unfold get_all_combinations. rewrite CombinationsFacts.product_nested.
    by rewrite CombinationsFacts.nested_iteration_empty_axis.
Qed.


(** ** What tasks do to the trace *)

Global Instance same_trace_preorder : PreOrder (same_trace (P:=P)).
Proof.
  split; [by intros w|]. intros w1 w2 w3. unfold same_trace. congruence.
Qed.

Lemma found_urls_app t1 t2 : found_urls (t1 ++ t2) = found_urls t1 ∪ found_urls t2.
Proof. unfold found_urls. by rewrite fmap_app, union_list_app_L. Qed.

Global Instance found_step_preorder : PreOrder (found_step (P:=P)).
Proof.
  split.
  - intros w. exists []. rewrite app_nil_r. split_and!; [done|constructor|].
    unfold found_urls. simpl. set_solver.
  - intros w1 w2 w3 (F1 & Ht1 & HF1 & Hk1) (F2 & Ht2 & HF2 & Hk2).
    exists (F1 ++ F2). split_and!.
    + by rewrite Ht2, Ht1, app_assoc.
    + by apply Forall_app.
    + rewrite Hk2, Hk1, found_urls_app. set_solver.
Qed.

Global Instance listing_step_preorder : PreOrder (listing_step (P:=P)).
Proof.
  split.
  - intros w. exists []. rewrite app_nil_r. split_and!; [done|constructor| |].
    + by intros url ?%elem_of_nil.
    + unfold found_urls. simpl. set_solver.
  - intros w1 w2 w3 (L1 & Ht1 & HL1 & Hc1 & Hk1) (L2 & Ht2 & HL2 & Hc2 & Hk2).
    exists (L1 ++ L2). split_and!.
    + by rewrite Ht2, Ht1, app_assoc.
    + by apply Forall_app.
    + intros url [?|?]%elem_of_app; apply elem_of_app;
        [left; by apply Hc1|right; by apply Hc2].
    + rewrite Hk2, Hk1, found_urls_app. set_solver.
Qed.

Lemma gather_for_each {X} n (f : X → M (world P) unit) xs w :
  gather_with_concurrency n (f <$> xs) w = for_each xs f w.
Proof.
  unfold gather_with_concurrency. revert w.
  induction xs as [|x xs IH]; intros w; [done|].
  simpl. unfold bind, id. destruct (f x w) as [[[]|?|] w']; [apply IH|done..].
Qed.

End with_agent.

(** Goals [respects R m], [finishes m] and [no_raise m] by the shape of
    [m]; what is left are the primitive steps. *)
Ltac shape_step :=
  match goal with
  | |- respects _ (bind _ _) => apply respects_bind; [apply _| |intros ?]
  | |- respects _ (ret _) => apply respects_ret, _
  | |- respects _ (raise _) => apply respects_raise, _
  | |- respects _ get => apply respects_get, _
  | |- respects _ (try_except _ _) =>
      apply respects_try_except; [apply _| |intros [] ? ?; simplify_eq/=]
  | |- respects _ (try_finally _ _) => apply respects_try_finally; [apply _| |]
  | |- respects _ (for_each _ _) => apply respects_for_each; [apply _|intros ?]
  | |- respects _ (map_each _ _) => apply respects_map_each; [apply _|intros ?]
  | |- respects _ (on_page _) => apply respects_on_page; intros ? ?
  | |- respects _ (modify _) => apply respects_modify; intros ?
  | |- finishes (bind _ _) => apply finishes_bind; [|intros ?]
  | |- finishes (ret _) => apply finishes_ret
  | |- finishes (raise _) => apply finishes_raise
  | |- finishes get => apply finishes_get
  | |- finishes (modify _) => apply finishes_modify
  | |- finishes (await _) => apply finishes_await
  | |- finishes (try_except _ _) =>
      apply finishes_try_except; [|intros [] ? ?; simplify_eq/=]
  | |- finishes (try_finally _ _) => apply finishes_try_finally
  | |- finishes (for_each _ _) => apply finishes_for_each; intros ?
  | |- finishes (map_each _ _) => apply finishes_map_each; intros ?
  | |- finishes (on_page _) => apply finishes_on_page
  | |- no_raise (bind _ _) => apply no_raise_bind; [|intros ?]
  | |- no_raise (ret _) => apply no_raise_ret
  | |- no_raise (modify _) => apply no_raise_modify
  | |- no_raise (try_finally _ _) => apply no_raise_try_finally
  | |- no_raise (try_except _ (λ e, Some _)) => apply no_raise_try_except_all; intros ?
  | |- no_raise (for_each _ _) => apply no_raise_for_each; intros ?
  | |- _ (if ?b then _ else _) => destruct b
  | |- _ (match ?x with _ => _ end) => destruct x
  end.

Section traces.
Context {P : Type} `{PageAgent P}.




Lemma found_step_set_browser (w : world P) p : found_step w (set_browser p w).
Proof.
  exists []. simpl. rewrite app_nil_r. split_and!; [done|constructor|].
  unfold found_urls, known_products_urls. simpl. set_solver.
Qed.

(** Lines 248-253 of [handle_listing]: the page's URLs are merged into
    the file, or nothing changes when they cannot be read. *)
Lemma merge_segment_found :
  respects found_step
    (products_urls <- load_products_urls ;;
     new_urls <- on_page get_page_products_urls ;;
     record (Found new_urls) ;;
     dump_products_urls products_urls new_urls).
Proof.
  intros w. unfold load_products_urls, get_page_products_urls, bind, get, ret,
    on_page, zoom, await, record, dump_products_urls, modify. simpl.
  destruct (card_links (browser w)) as [[new_urls|e] p']; simpl.
  - exists [Found new_urls]. split_and!; [done|by repeat constructor|].
    unfold found_urls, known_products_urls. simpl. set_solver.
  - apply found_step_set_browser.
Qed.

Lemma handle_listing_page_found listing_url page_id :
  respects found_step (handle_listing_page listing_url page_id).
Proof.
  unfold handle_listing_page.
  do 2 (apply respects_bind;
          [apply _|apply respects_on_page, found_step_set_browser|intros _]).
  apply respects_try_finally; [apply _| |].
  - apply respects_try_except; [apply _| |].
    + apply respects_bind;
        [apply _|apply respects_on_page, found_step_set_browser|intros _].
      apply merge_segment_found.
    + intros e h [= <-]. apply respects_ret, _.
  - apply respects_bind;
      [apply _|apply respects_on_page, found_step_set_browser|intros _].
    apply respects_on_page, found_step_set_browser.
Qed.

Lemma handle_listing_task_found listing_url :
  respects found_step (handle_listing_task listing_url).
Proof.
  unfold handle_listing_task.
  repeat first
    [ apply handle_listing_page_found
    | apply found_step_set_browser
    | shape_step ].
Qed.

Lemma handle_listing_task_finishes listing_url :
  finishes (handle_listing_task listing_url).
Proof.
  unfold handle_listing_task, handle_listing_page, get_total_pages,
    load_products_urls, get_page_products_urls, dump_products_urls, record,
    Text.int, Text.max.
  repeat shape_step.
Qed.

Lemma handle_listing_step listing_url :
  respects listing_step (handle_listing listing_url).
Proof.
  intros w. unfold handle_listing, bind, record, modify, try_finally. simpl.
  set (w0 := set_trace (trace w ++ [Started Listing listing_url]) w).
  pose proof (handle_listing_task_found listing_url w0) as (F & Ht & HF & Hk).
  pose proof (handle_listing_task_finishes listing_url w0) as Hfin.
  assert (listing_step w
            (set_trace (trace (handle_listing_task listing_url w0).2
                        ++ [Finished Listing listing_url])
                       (handle_listing_task listing_url w0).2)) as Hstep.
  { exists (Started Listing listing_url :: F ++ [Finished Listing listing_url]).
    split_and!.
    - simpl. rewrite Ht. simpl. by rewrite <-!app_assoc.
    - constructor; [done|]. apply Forall_app. split; [|by repeat constructor].
      eapply Forall_impl; [done|]. by intros [].
    - intros url [[= ->]|[Hin|Hin]%elem_of_app]%elem_of_cons.
      + right. apply elem_of_app. right. by left.
      + by apply (proj1 (Forall_forall _ _) HF) in Hin.
      + by apply list_elem_of_singleton in Hin.
    - unfold known_products_urls in Hk |- *. simpl. rewrite Hk.
      change (Started Listing listing_url :: F ++ [Finished Listing listing_url])
        with ([Started Listing listing_url] ++ F ++ [Finished Listing listing_url]).
      rewrite !found_urls_app. unfold found_urls at 2 4. simpl. set_solver. }
  destruct (handle_listing_task listing_url w0) as [[[]|e|] w1]; done.
Qed.

Lemma listing_phase_step : respects listing_step (listing_phase (P:=P)).
Proof.
  intros w. unfold listing_phase. rewrite gather_for_each.
  apply respects_for_each; [apply _|]. apply handle_listing_step.
Qed.




End traces.
End PlaywrightFacts.


(* ===================================================================== *)
(** * What a run does to the records and the files                        *)
(* ===================================================================== *)

Module ContainerFacts.
Import Combinations PlaywrightUtils EffFacts PlaywrightFacts.

Lemma respects_weaken {S A} (R R' : relation S) (m : M S A) :
  (∀ s s', R s s' → R' s s') → respects R m → respects R' m.
Proof. intros HR Hm s. apply HR, Hm. Qed.


Section containers.
Context {P : Type} `{PageAgent P}.

Global Instance product_step_preorder : PreOrder (product_step (P:=P)).
Proof.
  split; [by intros w|].
  intros w1 w2 w3 (Hd1 & Hf1 & Hp1) (Hd2 & Hf2 & Hp2).
  split_and!; [by etrans|set_solver|congruence].
Qed.

Global Instance same_records_preorder : PreOrder (same_records (P:=P)).
Proof.
  split; [by intros w|].
  intros w1 w2 w3 (? & ? & ? & ? & ?) (? & ? & ? & ? & ?).
  split_and!; congruence.
Qed.

Global Instance only_grows_preorder : PreOrder (only_grows (P:=P)).
Proof.
  split; [by intros w|].
  intros w1 w2 w3 (Hd1 & Hf1 & Hp1) (Hd2 & Hf2 & Hp2).
  split_and!; [by etrans|set_solver..].
Qed.

Global Instance same_containers_preorder : PreOrder (same_containers (P:=P)).
Proof.
  split; [by intros w|].
  intros w1 w2 w3 (? & ? & ? & ? & ? & ? & ?) (? & ? & ? & ? & ? & ? & ?).
  split_and!; congruence.
Qed.

End containers.

(** The steps that [shape_step] leaves: one update of the world. *)
Ltac container_step :=
  unfold product_step, same_records, only_grows, same_containers,
    known_products_urls;
  simpl; split_and!; first [done | by apply prefix_app_r | set_solver].

Section runs.
Context {P : Type} `{PageAgent P}.

Lemma handle_url_product_step fuel url :
  respects product_step (handle_url fuel url).
Proof.
  unfold handle_url, handle_url_task, handle_url_body, handle_url_cleanup,
    identify_or_fail, inventory_identifier, probe_variant, add_failed_url,
    dump_failed_urls, export, dump_data, record.
  repeat shape_step; container_step.
Qed.

Lemma product_phase_product_step fuel pages_number products_urls :
  respects product_step (product_phase fuel pages_number products_urls).
Proof.
  intros w. unfold product_phase. rewrite gather_for_each.
  apply respects_for_each; [apply _|]. apply handle_url_product_step.
Qed.

Lemma handle_listing_same_records listing_url :
  respects same_records (handle_listing listing_url).
Proof.
  unfold handle_listing, handle_listing_task, handle_listing_page,
    load_products_urls, dump_products_urls, record.
  repeat shape_step; container_step.
Qed.

Lemma listing_phase_same_records : respects same_records (listing_phase (P:=P)).
Proof.
  intros w. unfold listing_phase. rewrite gather_for_each.
  apply respects_for_each; [apply _|]. apply handle_listing_same_records.
Qed.

Lemma listing_phase_only_grows : respects only_grows (listing_phase (P:=P)).
Proof.
  intros w.
  destruct (listing_phase_same_records w) as (Hd & Hf & _).
  destruct (listing_phase_step w) as (L & _ & _ & _ & Hk).
  split_and!; [by rewrite Hd|by rewrite Hf|rewrite Hk; set_solver].
Qed.

End runs.
Section runs2.
Context {P : Type} `{PageAgent P}.

(** X1.  A run only ever adds: the records [data] held before the run
    are still there, in place, at its end, followed by the ones the run
    appended; no URL leaves [failed_urls]; and [products_urls.pkl] holds
    every URL it held before. *)
Theorem run_only_appends (fuel : nat) (headless : bool) (pages_number : Z)
    (w : world P) :
  let w' := (run fuel headless pages_number w).2 in
  data w `prefix_of` data w'
  ∧ failed_urls w ⊆ failed_urls w'
  ∧ known_products_urls w ⊆ known_products_urls w'.
Proof.
  assert (respects only_grows (run fuel headless pages_number)) as Hrun; [|apply Hrun].
  unfold run.
  apply respects_bind; [apply _|shape_step; container_step|intros _].
  apply respects_try_finally; [apply _| |shape_step; container_step].
  apply respects_bind; [apply _|apply listing_phase_only_grows|intros _].
  apply respects_bind; [apply _| |intros products_urls].
  - unfold load_products_urls. repeat shape_step.
  - apply (respects_weaken product_step); [|apply product_phase_product_step].
    intros s s' (Hd & Hf & Hp). split_and!; [done..|].
    unfold known_products_urls. by rewrite Hp.
Qed.

(** X2.  When contexts and pages open and close without error, a listing
    task returns normally whatever happens to the pages it visits, and so
    does the whole listing phase.  A listing task changes neither [data]
    nor [failed_urls]. *)
Theorem handle_listing_always_returns :
  reliable_lifecycle (P:=P) →
  (∀ listing_url (w : world P),
     let r := handle_listing listing_url w in
     r.1 = Return tt
     ∧ data r.2 = data w
     ∧ failed_urls r.2 = failed_urls w)
  ∧ ∀ w : world P, (listing_phase w).1 = Return tt.
Proof.
  intros (Hnc & Hnp & Hpc & Hcc).
  assert (∀ listing_url, finishes (handle_listing (P:=P) listing_url)) as Hfin.
  { intros listing_url. unfold handle_listing, record.
    repeat first [ apply handle_listing_task_finishes | shape_step ]. }
  assert (∀ listing_url, no_raise (handle_listing (P:=P) listing_url)) as Hno.
  { intros listing_url.
    unfold handle_listing, handle_listing_task, record.
    repeat first [ by apply (no_raise_on_page_await _ tt) | shape_step ]. }
  split.
  - intros listing_url w r. subst r.
    destruct (handle_listing_same_records listing_url w) as (Hd & Hf & _).
    specialize (Hfin listing_url w). specialize (Hno listing_url w).
    split_and!; [|done|done].
    destruct (handle_listing listing_url w) as [[[]|e|] w']; simpl in *;
      [done| |done]. by destruct (Hno e).
  - intros w.
    assert (finishes (listing_phase (P:=P))) as Hfin'.
    { intros w'. unfold listing_phase. rewrite gather_for_each.
      by apply finishes_for_each. }
    assert (no_raise (listing_phase (P:=P))) as Hno'.
    { intros w' e. unfold listing_phase. rewrite gather_for_each.
      by apply no_raise_for_each. }
    specialize (Hfin' w). specialize (Hno' w).
    destruct (listing_phase w) as [[[]|e|] w']; simpl in *; [done| |done].
    by destruct (Hno' e).
Qed.

End runs2.

Section runs3.
Context {P : Type} `{PageAgent P}.

Lemma handle_url_cleanup_saves (w : world P) :
  data_saved (handle_url_cleanup w).2.
Proof.
  unfold handle_url_cleanup, export, dump_data, bind, modify, on_page, zoom, await.
  simpl.
  destruct (page_close (browser w)) as [[[]|?] p1]; simpl; [|done].
  by destruct (context_close p1) as [[[]|?] p2].
Qed.

Lemma handle_url_saves fuel url (w w' : world P) :
  handle_url fuel url w = (Return tt, w') → data_saved w'.
Proof.
  unfold handle_url, bind at 1, record at 1, modify. simpl.
  set (w0 := set_trace _ w). unfold try_finally at 1.
  destruct (handle_url_task fuel url w0) as [[[]|e|] w1] eqn:Htask; simpl; try done.
  intros [= <-]. unfold handle_url_task in Htask.
  unfold bind at 1 in Htask.
  destruct (on_page (await new_context) w0) as [[[]|e|] w01]; try done.
  unfold bind at 1 in Htask.
  destruct (on_page (await new_page) w01) as [[[]|e|] w02]; try done.
  unfold try_finally in Htask.
  destruct (try_except _ _ w02) as [[[]|e|] w03]; try done;
    pose proof (handle_url_cleanup_saves w03) as Hs;
    destruct (handle_url_cleanup w03) as [[[]|e'|] w04]; by simplify_eq/=.
Qed.

(** X3.  When a product task returns, [data.pkl] and [output.csv] hold
    all of [data] as it then is; and so they do after a batch of product
    tasks that returns, if the batch was not empty. *)
Theorem handle_url_saves_data (fuel : nat) :
  (∀ url (w : world P),
     let r := handle_url fuel url w in
     r.1 = Return tt →
     data_pkl r.2 = Some (data r.2) ∧ output_csv r.2 = Some (data r.2))
  ∧ (∀ n urls (w : world P),
       let r := gather_with_concurrency n (handle_url fuel <$> urls) w in
       urls ≠ [] → r.1 = Return tt →
       data_pkl r.2 = Some (data r.2) ∧ output_csv r.2 = Some (data r.2)).
Proof.
  split; [intros url w r; subst r; intros Hr; apply (handle_url_saves fuel url w);
          by destruct (handle_url fuel url w) as [? ?]; simpl in *; subst|].
  intros n urls w r. subst r. rewrite gather_for_each.
  revert w. induction urls as [|url urls IH]; intros w Hne; [done|].
  simpl. unfold bind.
  pose proof (handle_url_saves fuel url w) as Hs.
  destruct (handle_url fuel url w) as [[[]|e|] w1]; simpl in *; try done.
  destruct urls as [|url' urls]; [intros _; by apply (Hs w1)|].
  by apply IH.
Qed.

End runs3.

Section records.
Context {P : Type} `{PageAgent P}.





End records.

Section failures.
Context {P : Type} `{PageAgent P}.

Global Instance same_failed_urls_pkl_preorder : PreOrder (same_failed_urls_pkl (P:=P)).
Proof.
  split; [by intros w|]. intros w1 w2 w3. unfold same_failed_urls_pkl. congruence.
Qed.





(** X20.  How [try_inventory_quantity] reads the answer of the cart, once
    the quantity is typed and the button clicked.  An answer without a
    [data] key counts as "available", and nothing more is clicked; an
    answer whose [data] has no [get] ends in [TimeoutError]; an error in
    [data] is "not available" after the confirm button, and no error is
    "available" after the preview is closed. *)
Theorem cart_answer_without_data_counts_as_available (fuel : nat) (check_value : Z)
    (p p1 p2 p3 : P) (response_obj : cart_response) :
  fill_qty check_value p = (Ok tt, p1) →
  click_add_to_cart_until_done fuel 0 p1 = (Return tt, p2) →
  cart_add_response p2 = (Ok response_obj, p3) →
  match response_obj with
  | NoDataKey => try_inventory_quantity fuel check_value p = (Return true, p3)
  | DataNotDict => try_inventory_quantity fuel check_value p = (Raise TimeoutError, p3)
  | Data true =>
      ∀ p4, click_confirm p3 = (Ok tt, p4) →
            try_inventory_quantity fuel check_value p = (Return false, p4)
  | Data false =>
      ∀ p4, click_modal_close p3 = (Ok tt, p4) →
            try_inventory_quantity fuel check_value p = (Return true, p4)
  end.
Proof.
  intros Hfill Hclick Hresp.
  assert (∀ k : cart_response → M P bool,
            (await (fill_qty check_value) ;;
             click_add_to_cart_until_done fuel 0 ;;
             response_obj <- await cart_add_response ;;
             k response_obj) p = k response_obj p3) as Hbody.
  { intros k.
    erewrite bind_return by (by apply await_ok).
    erewrite bind_return by exact Hclick.
    by erewrite bind_return by (by apply await_ok). }
  unfold try_inventory_quantity, cart_interaction.
  destruct response_obj as [| |[]].
  - unfold try_except at 1. by rewrite Hbody.
  - unfold try_except at 1. by rewrite Hbody.
  - intros p4 Hconfirm. unfold try_except at 1. rewrite Hbody.
    unfold try_except. by erewrite bind_return by (by apply await_ok).
  - intros p4 Hclose. unfold try_except at 1. rewrite Hbody.
    unfold try_except. by erewrite bind_return by (by apply await_ok).
Qed.

End failures.

End ContainerFacts.

(* ===================================================================== *)
(** * The probe and what it reads from the page                           *)
(* ===================================================================== *)

Module ProbeFacts.
Import Combinations PlaywrightUtils EffFacts TextFacts PlaywrightFacts.

Section carts.
Context {P : Type} `{PageAgent P}.

Lemma probe_loop_accumulating Q in_cart on_form :
  accumulating_cart Q in_cart on_form →
  ∀ fuel inventory try_count check_value (p : P),
    on_form p → in_cart p = inventory → inventory ≤ Q → 2 ≤ check_value →
    -100000 ≤ try_count ≤ 10 →
    (Z.to_nat (Q - inventory + 2 * check_value + try_count + 100002) ≤ fuel)%nat →
    ∃ n p', probe_loop fuel inventory try_count check_value p = (Return n, p')
            ∧ Q - 2 ≤ n ≤ Q ∧ in_cart p' = n.
Proof.
  intros Hcart.
  induction fuel as [|fuel IH]; intros inventory t v p Hp Hin HQ Hv Ht Hfuel; [lia|].
  destruct fuel as [|fuel]; [lia|].
  assert (∀ v1 t2,
            2 ≤ v1 → -100000 ≤ t2 ≤ 10 →
            v1 + t2 ≤ 2 * v + t - 1 →
            ∃ n p',
              (availability <- try_inventory_quantity (S fuel) v1 ;;
               let inventory' := if availability : bool then inventory + v1 else inventory in
               let v' := if availability then v1 else v1 `div` 2 in
               if (v' =? 1) && negb availability then ret inventory'
               else probe_loop (S fuel) inventory' t2 v') p = (Return n, p')
              ∧ Q - 2 ≤ n ≤ Q ∧ in_cart p' = n) as Hround.
  { intros v1 t2 Hv1 Ht2 Hdec.
    destruct (Hcart fuel v1 p Hp) as (p1 & Htry & Hp1 & Hc1).
    erewrite bind_return by exact Htry. cbv zeta. rewrite Hin in Hc1 |- *.
    destruct (Z.leb_spec (inventory + v1) Q) as [Hle|Hgt]; cbn [negb].
    - rewrite andb_false_r. apply IH; [done|done|lia|lia|lia|lia].
    - rewrite andb_true_r. destruct (Z.eqb_spec (v1 `div` 2) 1) as [Hone|Hmore].
      + exists inventory, p1. split; [done|]. split; [|done].
        split; [|done]. revert Hone Hgt. clear. intros. Z.div_mod_to_equations. lia.
      + apply IH; [done|done|done| | |].
        * revert Hmore Hv1. clear. intros. Z.div_mod_to_equations. lia.
        * lia.
        * assert (2 * (v1 `div` 2) ≤ v1) by (clear; Z.div_mod_to_equations; lia).
          lia. }
  simpl. destruct (Z.ltb_spec 10 (t + 1)) as [Hbump|Hno].
  - apply Hround; lia.
  - apply Hround; lia.
Qed.


(** X5.  Against a cart that keeps what it accepts, with [Q] units in
    stock, [get_inventory_value] returns once it is allowed enough rounds,
    and the number it returns is what the cart then holds: at most [Q],
    and at least [Q - 2]. *)
Theorem get_inventory_value_accumulating_cart (Q : Z) (in_cart : P → Z)
    (on_form : P → Prop) (fuel : nat) (check_value : Z) (p p1 : P) :
  accumulating_cart Q in_cart on_form →
  check_out_of_stock p = (Return false, p1) →
  on_form p1 → in_cart p1 = 0 →
  0 ≤ Q → 2 ≤ check_value →
  (Z.to_nat (Q + 2 * check_value + 100002) ≤ fuel)%nat →
  ∃ n p', get_inventory_value fuel check_value p = (Return n, p')
          ∧ Q - 2 ≤ n ≤ Q
          ∧ in_cart p' = n.
Proof.
  intros Hcart Hstock Hp1 Hempty HQ Hv Hfuel. unfold get_inventory_value.
  erewrite bind_return by exact Hstock.
  apply (probe_loop_accumulating Q in_cart on_form); [done..|lia|done|lia|lia].
Qed.

Lemma try_inventory_quantity_no_rounds fuel v (p p' : P) b :
  try_inventory_quantity (S fuel) v p = (Return b, p') →
  (try_inventory_quantity 0 v p).1 = OutOfFuel.
Proof.
  unfold try_inventory_quantity, cart_interaction, try_except, bind.
  by destruct (await (fill_qty v) p) as [[[]|?|] p1].
Qed.

Lemma probe_loop_comparing_never_returns Q on_form :
  comparing_cart Q on_form → 3 ≤ Q →
  ∀ fuel inventory try_count check_value (p : P),
    on_form p →
    (probe_loop fuel inventory try_count check_value p).1 = OutOfFuel.
Proof.
  intros Hcart HQ.
  induction fuel as [|fuel IH]; intros inventory t v p Hp; [done|].
  assert (∀ v1 t2,
    ((availability <- try_inventory_quantity fuel v1 ;;
      let inventory' := if availability : bool then inventory + v1 else inventory in
      let v' := if availability then v1 else v1 `div` 2 in
      if (v' =? 1) && negb availability then ret inventory'
      else probe_loop fuel inventory' t2 v') p).1 = OutOfFuel) as Hround.
  { intros v1 t2. destruct fuel as [|fuel].
    { destruct (Hcart 0%nat v1 p Hp) as (p1 & Htry & _).
      apply try_inventory_quantity_no_rounds in Htry. unfold bind.
      by destruct (try_inventory_quantity 0 v1 p) as [[?|?|] ?]; simplify_eq/=. }
    destruct (Hcart fuel v1 p Hp) as (p1 & Htry & Hp1).
    erewrite bind_return by exact Htry. cbv zeta.
    destruct (Z.leb_spec v1 Q) as [Hle|Hgt]; cbn [negb].
    - rewrite andb_false_r. by apply IH.
    - replace (v1 `div` 2 =? 1) with false
        by (symmetry; apply Z.eqb_neq; Z.div_mod_to_equations; lia).
      cbn [andb]. by apply IH. }
  simpl. destruct (10 <? t + 1); apply Hround.
Qed.

Lemma probe_loop_refused Q on_form fuel inventory try_count check_value (p : P) :
  comparing_cart Q on_form → on_form p → Q < check_value → try_count < 10 →
  ∃ p1, on_form p1
        ∧ probe_loop (S (S fuel)) inventory try_count check_value p
          = (if check_value `div` 2 =? 1 then ret inventory
             else probe_loop (S fuel) inventory (try_count + 1) (check_value `div` 2)) p1.
Proof.
  intros Hcart Hp Hv Ht.
  destruct (Hcart fuel check_value p Hp) as (p1 & Htry & Hp1).
  exists p1. split; [done|]. cbn [probe_loop].
  replace (10 <? try_count + 1) with false by (symmetry; apply Z.ltb_ge; lia).
  erewrite bind_return by exact Htry.
  replace (check_value <=? Q) with false by (symmetry; apply Z.leb_gt; lia).
  cbn [negb]. rewrite andb_true_r. by destruct (_ =? 1).
Qed.

(** X6.  Against a cart that only compares each request with the stock
    [Q], [get_inventory_value] never returns when [Q] is 3 or more,
    whatever the first guess, and with the default guess it returns 0 when
    [Q] is 2 or less: a stock of 1 or 2 units is reported as none. *)
Theorem get_inventory_value_comparing_cart (Q : Z) (on_form : P → Prop)
    (p p1 : P) :
  comparing_cart Q on_form →
  check_out_of_stock p = (Return false, p1) →
  on_form p1 →
  (3 ≤ Q → ∀ check_value, diverges (λ fuel, get_inventory_value fuel check_value) p)
  ∧ (Q ≤ 2 → ∀ fuel, (7 ≤ fuel)%nat →
       (get_inventory_value fuel guessed_initial_value_default p).1 = Return 0).
Proof.
  intros Hcart Hstock Hp1. split.
  - intros HQ check_value fuel. unfold get_inventory_value.
    erewrite bind_return by exact Hstock.
    by apply (probe_loop_comparing_never_returns Q on_form).
  - intros HQ fuel Hfuel.
    assert ((get_inventory_value 7 guessed_initial_value_default p).1 = Return 0)
      as Hseven.
    { unfold get_inventory_value, guessed_initial_value_default.
      erewrite bind_return by exact Hstock.
      destruct (probe_loop_refused Q on_form 5 0 0 100 p1) as (p2 & Hp2 & ->);
        [done|done|lia|lia|].
      change (100 `div` 2) with 50. change (50 =? 1) with false.
      destruct (probe_loop_refused Q on_form 4 0 (0 + 1) 50 p2) as (p3 & Hp3 & ->);
        [done|done|lia|lia|].
      change (50 `div` 2) with 25. change (25 =? 1) with false.
      destruct (probe_loop_refused Q on_form 3 0 (0 + 1 + 1) 25 p3) as (p4 & Hp4 & ->);
        [done|done|lia|lia|].
      change (25 `div` 2) with 12. change (12 =? 1) with false.
      destruct (probe_loop_refused Q on_form 2 0 (0 + 1 + 1 + 1) 12 p4)
        as (p5 & Hp5 & ->); [done|done|lia|lia|].
      change (12 `div` 2) with 6. change (6 =? 1) with false.
      destruct (probe_loop_refused Q on_form 1 0 (0 + 1 + 1 + 1 + 1) 6 p5)
        as (p6 & Hp6 & ->); [done|done|lia|lia|].
      change (6 `div` 2) with 3. change (3 =? 1) with false.
      destruct (probe_loop_refused Q on_form 0 0 (0 + 1 + 1 + 1 + 1 + 1) 3 p6)
        as (p7 & Hp7 & ->); [done|done|lia|lia|].
      done. }
    rewrite (get_inventory_value_more_fuel 7 fuel); [done|done|].
    by rewrite Hseven.
Qed.

End carts.

Section options.
Context {P : Type} `{PageAgent P}.


Lemma dict_set_keys d k v : ∀ k', k' ∈ (dict_set d k v).*1 ↔ k' = k ∨ k' ∈ d.*1.
Proof.
  induction d as [|[k0 v0] d IH]; intros k'; simpl.
  - rewrite list_elem_of_singleton. set_solver.
  - case_decide as Hk; simpl.
    + subst k0. set_solver.
    + rewrite !elem_of_cons, IH. naive_solver.
Qed.

Lemma dict_set_usable d k v :
  usable_options d → Forall (λ v, v ≠ EmptyString) v → usable_options (dict_set d k v).
Proof.
  intros [Hnd Hall] Hv. induction d as [|[k0 v0] d IH]; simpl.
  - split; [apply NoDup_singleton|by repeat constructor].
  - simpl in Hnd. apply NoDup_cons in Hnd as [Hk0 Hnd].
    apply Forall_cons in Hall as [Hv0 Hall].
    case_decide as Hk; simpl.
    + split; [by apply NoDup_cons|by constructor].
    + destruct (IH Hnd Hall) as [Hnd' Hall']. split.
      * apply NoDup_cons. split; [|done]. rewrite dict_set_keys. naive_solver.
      * by constructor.
Qed.

Lemma get_attr_values_nonempty attr (p p' : P) values :
  get_attr_values attr p = (Return values, p') →
  Forall (λ v, v ≠ EmptyString) values.
Proof.
  unfold get_attr_values, bind, await.
  destruct (option_values attr p) as [[options|?] p1]; [|done].
  intros [= <- _]. apply Forall_forall. intros v Hv.
  apply list_elem_of_omap in Hv as (o & _ & Ho).
  destruct o as [[|]|]; simpl in Ho; by simplify_eq.
Qed.

Lemma get_options_dict_from_usable attrs : ∀ acc (p p' : P) d,
  usable_options acc →
  get_options_dict_from attrs acc p = (Return d, p') →
  usable_options d ∧ ∀ k, k ∈ d.*1 ↔ k ∈ attrs ∨ k ∈ acc.*1.
Proof.
  induction attrs as [|attr attrs IH]; intros acc p p' d Hacc; simpl.
  - intros [= <- _]. split; [done|]. set_solver.
  - unfold bind at 1.
    destruct (get_attr_values attr p) as [[values|?|] p1] eqn:Hvalues; [|done..].
    intros Hrest. apply IH in Hrest as [Hd Hkeys].
    + split; [done|]. intros k. rewrite Hkeys, dict_set_keys, elem_of_cons.
      naive_solver.
    + apply dict_set_usable; [done|]. by eapply get_attr_values_nonempty.
Qed.

(** X8.  The dictionary that [get_options_dict] returns has one entry
    for each select of the page and no other, and none of its option
    values is the empty string; so every combination enumerated from it
    has one non-empty value for each select. *)
Theorem get_options_dict_usable_options (p p' : P) (d : list (handle * list string)) :
  get_options_dict p = (Return d, p') →
  NoDup d.*1
  ∧ (∀ attrs p1, attribute_selects p = (Ok attrs, p1) → ∀ k, k ∈ d.*1 ↔ k ∈ attrs)
  ∧ (∀ k values v, (k, values) ∈ d → v ∈ values → v ≠ EmptyString)
  ∧ (∀ c, c ∈ get_all_combinations d.*2 →
       length c = length d ∧ Forall (λ v, v ≠ EmptyString) c).
Proof.
  unfold get_options_dict, bind at 1, await.
  destruct (attribute_selects p) as [[attrs|?] p1] eqn:Hattrs; [|done].
  intros Hfrom.
  apply get_options_dict_from_usable in Hfrom as [[Hnd Hall] Hkeys];
    [|split; [constructor|constructor]].
  assert (∀ k values v, (k, values) ∈ d → v ∈ values → v ≠ EmptyString) as Hvals.
  { intros k values v Hkv Hv.
    apply (proj1 (Forall_forall _ _) Hall) in Hkv. simpl in Hkv.
    by apply (proj1 (Forall_forall _ _) Hkv). }
  split_and!; [done| |done|].
  - intros attrs' p1' [= <- <-] k. rewrite Hkeys. set_solver.
  - intros c Hc. unfold get_all_combinations in Hc.
    rewrite CombinationsFacts.product_nested in Hc.
    apply CombinationsFacts.elem_of_nested_iteration in Hc.
    unfold drawn_from in Hc. split.
    + apply Forall2_length in Hc. by rewrite length_fmap in Hc.
    + apply Forall_forall. intros v Hv.
      apply list_elem_of_lookup in Hv as [i Hi].
      destruct (Forall2_lookup_l _ _ _ _ _ Hc Hi) as (axis & Haxis & Hin).
      rewrite list_lookup_fmap in Haxis.
      destruct (d !! i) as [[k values]|] eqn:Hd; [|done]. simpl in Haxis.
      simplify_eq. eapply Hvals; [|done]. by eapply list_elem_of_lookup_2.
Qed.

Lemma probe_loop_nonneg : ∀ fuel inventory try_count check_value (p p' : P) n,
  0 ≤ inventory → 0 ≤ check_value →
  probe_loop fuel inventory try_count check_value p = (Return n, p') →
  inventory ≤ n.
Proof.
  induction fuel as [|fuel IH]; intros inventory t v p p' n Hinv Hv; [done|].
  simpl.
  assert (∀ v1 t2, 0 ≤ v1 →
    (availability <- try_inventory_quantity fuel v1 ;;
     let inventory' := if availability : bool then inventory + v1 else inventory in
     let v' := if availability then v1 else v1 `div` 2 in
     if (v' =? 1) && negb availability then ret inventory'
     else probe_loop fuel inventory' t2 v') p = (Return n, p') →
    inventory ≤ n) as Hround.
  { intros v1 t2 Hv1. unfold bind.
    destruct (try_inventory_quantity fuel v1 p) as [[[]|?|] p1]; cbv zeta; try done.
    - rewrite andb_false_r. intros Hrest. apply IH in Hrest; lia.
    - cbn [negb]. rewrite andb_true_r. destruct (v1 `div` 2 =? 1).
      + by intros [= <- _].
      + intros Hrest. apply IH in Hrest; [lia|lia|].
        apply Z.div_pos; lia. }
  destruct (10 <? t + 1); apply Hround; lia.
Qed.

(** X7.  When the availability text of the page contains [out of Stock],
    [get_inventory_value] returns 0 at once, whatever the rounds allowed:
    the browser is left as reading the text left it, and the cart is not
    touched.  And for a guess that is not negative, no number that
    [get_inventory_value] returns is negative. *)
Theorem get_inventory_value_out_of_stock (fuel : nat) (check_value : Z) (p p' : P) :
  (∀ text, availability_text p = (Ok (Some text), p') →
     Text.contains "out of Stock" text = true →
     get_inventory_value fuel check_value p = (Return 0, p'))
  ∧ (∀ n, 0 ≤ check_value →
       get_inventory_value fuel check_value p = (Return n, p') → 0 ≤ n).
Proof.
  split.
  - intros text Htext Hout.
    assert (check_out_of_stock p = (Return true, p')) as Hcheck.
    { unfold check_out_of_stock.
      erewrite bind_return by (by apply await_ok). cbv beta iota. by rewrite Hout. }
    unfold get_inventory_value. by erewrite bind_return by exact Hcheck.
  - intros n Hv. unfold get_inventory_value, bind.
    destruct (check_out_of_stock p) as [[[]|?|] p1]; [| |done..].
    + by intros [= <- _].
    + by apply probe_loop_nonneg.
Qed.

End options.
End ProbeFacts.

(* ===================================================================== *)
(** * The probe of [scraper.py]                                           *)
(* ===================================================================== *)

Module ScraperFacts.
Import EffFacts PlaywrightFacts.
Section facts.
Context {P : Type} `{Scraper.CartForm P}.

Lemma no_error_shown_finishes selectors : finishes (Scraper.no_error_shown (P:=P) selectors).
Proof.
  induction selectors as [|i selectors IH]; simpl; repeat shape_step; done.
Qed.

(** Whatever the page does, the probe of [scraper.py] answers. *)
Lemma try_inventory_quantity_answers v (p : P) :
  ∃ b p', Scraper.try_inventory_quantity v p = (Return b, p').
Proof.
  assert (finishes (Scraper.try_inventory_quantity (P:=P) v)) as Hfin.
  { unfold Scraper.try_inventory_quantity.
    repeat first [ apply no_error_shown_finishes | shape_step ]. }
  assert (no_raise (Scraper.try_inventory_quantity (P:=P) v)) as Hno.
  { unfold Scraper.try_inventory_quantity. repeat shape_step. }
  specialize (Hfin p). specialize (Hno p).
  destruct (Scraper.try_inventory_quantity v p) as [[b|e|] p']; simpl in *.
  - by exists b, p'.
  - by destruct (Hno e).
  - done.
Qed.

Lemma log2_half n : 2 ≤ n → Z.log2 (n `div` 2) = Z.log2 n - 1.
Proof.
  intros Hn.
  assert (n = 2 * (n `div` 2) ∨ n = 2 * (n `div` 2) + 1) as Hcases
    by (Z.div_mod_to_equations; lia).
  assert (0 < n `div` 2) by (Z.div_mod_to_equations; lia).
  destruct Hcases as [E|E]; rewrite E at 2;
    [rewrite Z.log2_double by done|rewrite Z.log2_succ_double by done]; lia.
Qed.

Lemma binary_search_rounds : ∀ fuel left right (p : P),
  left ≤ right + 1 →
  (left ≤ right → (Z.to_nat (Z.log2 (right - left + 1) + 1) ≤ fuel)%nat) →
  ∃ n p', Scraper.binary_search fuel left right p = (Return n, p')
          ∧ left - 1 ≤ n ≤ right.
Proof.
  induction fuel as [|fuel IH]; intros left right p Hlr Hfuel.
  - assert (right < left).
    { destruct (decide (left ≤ right)) as [Hle|]; [|lia].
      pose proof (Z.log2_nonneg (right - left + 1)). specialize (Hfuel Hle). lia. }
    simpl. replace (left <=? right) with false by (symmetry; apply Z.leb_gt; lia).
    exists right, p. split; [done|lia].
  - simpl. destruct (Z.leb_spec left right) as [Hle|Hgt].
    + destruct (try_inventory_quantity_answers ((left + right) `div` 2) p)
        as (b & p1 & Htry).
      erewrite bind_return by exact Htry.
      set (mid := (left + right) `div` 2).
      assert (left ≤ mid ≤ right) by (subst mid; Z.div_mod_to_equations; lia).
      specialize (Hfuel Hle).
      assert (∀ l r, l ≤ r → r - l + 1 ≤ (right - left + 1) `div` 2 →
                (Z.to_nat (Z.log2 (r - l + 1) + 1) ≤ fuel)%nat) as Hsub.
      { intros l r Hl Hsize.
        assert (2 ≤ right - left + 1) by (Z.div_mod_to_equations; lia).
        pose proof (log2_half (right - left + 1)).
        assert (Z.log2 (r - l + 1) ≤ Z.log2 ((right - left + 1) `div` 2))
          by (by apply Z.log2_le_mono).
        pose proof (Z.log2_nonneg (r - l + 1)). lia. }
      destruct b.
      * destruct (IH (mid + 1) right p1) as (n & p' & Hrun & Hn); [lia| |].
        -- intros Hl. apply Hsub; [done|]. subst mid. Z.div_mod_to_equations. lia.
        -- exists n, p'. split; [done|lia].
      * destruct (IH left (mid - 1) p1) as (n & p' & Hrun & Hn); [lia| |].
        -- intros Hl. apply Hsub; [done|]. subst mid. Z.div_mod_to_equations. lia.
        -- exists n, p'. split; [done|lia].
    + exists right, p. split; [done|lia].
Qed.

(** X10.  Whatever the page does, [get_inventory_value] of [scraper.py]
    returns, for a guess of 1 or more, a number between 0 and the guess;
    and its binary search is over after at most [log2 (guess - 1) + 1]
    rounds. *)
Theorem scraper_get_inventory_value_answers (check_value : Z) (p : P) :
  1 ≤ check_value →
  (∃ n p', Scraper.get_inventory_value check_value p = (Return n, p')
           ∧ 0 ≤ n ≤ check_value)
  ∧ ∀ fuel (p1 : P),
      (Z.to_nat (Z.log2 (check_value - 1) + 1) ≤ fuel)%nat →
      ∃ n p', Scraper.binary_search fuel 1 (check_value - 1) p1 = (Return n, p')
              ∧ 0 ≤ n ≤ check_value - 1.
Proof.
  intros Hv. split.
  - unfold Scraper.get_inventory_value.
    destruct (try_inventory_quantity_answers check_value p) as (b & p1 & Htry).
    erewrite bind_return by exact Htry. destruct b.
    + exists check_value, p1. split; [done|lia].
    + destruct (binary_search_rounds (Z.to_nat (check_value - 1)) 1
                  (check_value - 1) p1) as (n & p' & Hrun & Hn); [lia| |].
      * intros Hle. pose proof (Z.log2_lt_lin (check_value - 1)).
        pose proof (Z.log2_nonneg (check_value - 1)).
        replace (check_value - 1 - 1 + 1) with (check_value - 1) by lia. lia.
      * exists n, p'. split; [done|lia].
  - intros fuel p1 Hfuel.
    destruct (binary_search_rounds fuel 1 (check_value - 1) p1)
      as (n & p' & Hrun & Hn); [lia| |].
    + intros _. by replace (check_value - 1 - 1 + 1) with (check_value - 1) by lia.
    + exists n, p'. split; [done|lia].
Qed.

Lemma binary_search_honest Q on_form :
  Scraper.honest_form Q on_form →
  ∀ fuel left right (p : P),
    on_form p → 1 ≤ left → left ≤ right + 1 → left - 1 ≤ Q ≤ right →
    (Z.to_nat (right - left + 1) ≤ fuel)%nat →
    ∃ p', Scraper.binary_search fuel left right p = (Return Q, p') ∧ on_form p'.
Proof.
  intros Hform.
  induction fuel as [|fuel IH]; intros left right p Hp Hl Hlr HQ Hfuel.
  - assert (left = right + 1) as -> by lia. simpl.
    replace (right + 1 <=? right) with false by (symmetry; apply Z.leb_gt; lia).
    exists p. split; [|done]. unfold ret. f_equal. f_equal. lia.
  - simpl. destruct (Z.leb_spec left right) as [Hle|Hgt].
    + destruct (Hform ((left + right) `div` 2) p Hp) as (p1 & Htry & Hp1).
      erewrite bind_return by exact Htry.
      set (mid := (left + right) `div` 2).
      assert (left ≤ mid ≤ right) by (subst mid; Z.div_mod_to_equations; lia).
      destruct (Z.leb_spec mid Q) as [Hmid|Hmid].
      * apply IH; [done|lia..].
      * apply IH; [done|lia..].
    + exists p. split; [|done]. unfold ret. f_equal. f_equal. lia.
Qed.

(** X11.  Against a form that refuses a request exactly when it exceeds
    the stock [Q], [get_inventory_value] of [scraper.py] returns [Q] when
    [Q] is below the guess, and the guess itself otherwise: it never
    reports more than its first guess. *)
Theorem scraper_get_inventory_value_honest_form (Q : Z) (on_form : P → Prop)
    (check_value : Z) (p : P) :
  Scraper.honest_form Q on_form → on_form p → 1 ≤ check_value → 0 ≤ Q →
  (Scraper.get_inventory_value check_value p).1 = Return (Q `min` check_value).
Proof.
  intros Hform Hp Hv HQ. unfold Scraper.get_inventory_value.
  destruct (Hform check_value p Hp) as (p1 & Htry & Hp1).
  erewrite bind_return by exact Htry.
  destruct (Z.leb_spec check_value Q) as [Hle|Hgt].
  - simpl. f_equal. lia.
  - destruct (binary_search_honest Q on_form Hform (Z.to_nat (check_value - 1)) 1
                (check_value - 1) p1) as (p' & -> & _); [done|lia..|].
    simpl. f_equal. lia.
Qed.

End facts.
End ScraperFacts.

(* ===================================================================== *)
(** * The scraper on the simulated site                                   *)
(* ===================================================================== *)

Module SimFacts.
Import Combinations PlaywrightUtils EffFacts TextFacts PlaywrightFacts Sim.



Example get_total_pages_three_pages :
  (get_total_pages (H:=agent no_faults) listing_three_pages).1 = Return 3.
Proof. reflexivity. Qed.

(** C5, counterexample.  With one stored record that does not match the
    page, the compared count is 1, not the number of matching records
    (0); a product with a single combination that was never resolved is
    then reported as handled. *)
Lemma check_handled_url_counts_all_records :
  let url := "https://blackeaglearrows.com/rampage/" in
  let data := [blank_item] in
  let page := Sim_ [(url, Page [] [] blank_item false [("Size:", [Some "S"])] None 5 true)]
                   url 0 0 [] in
  count_of_matches url data = 0%nat
  ∧ length (handled_flags url data) = 1%nat
  ∧ (check_handled_url (H:=agent no_faults) data page).1 = Return true.
Proof. by split_and!. Qed.

Lemma check_handled_url_compares_lengths_example :
  let data := [blank_item; blank_item] in
  let p := on_product 5 true in
  let r := get_options_dict (H:=agent no_faults) p in
  length (handled_flags (page_url (PageAgent:=agent no_faults) r.2) data) = length data
  ∧ check_handled_url (H:=agent no_faults) data p = (Return true, r.2).
Proof.
  intros data p r.
  exact (check_handled_url_compares_lengths (H:=agent no_faults) data p r.2
           [(0%nat, ["S"; "M"])] eq_refl).
Defined.


Lemma count_cons f c history :
  count f (c :: history) = if f c then S (count f history) else count f history.
Proof.
  unfold count. rewrite filter_cons. destruct (f c); by case_decide.
Qed.

Lemma div5_succ (j : Z) :
  0 ≤ j → (j + 1) `div` 5 = j `div` 5 + (if (j + 1) `mod` 5 =? 0 then 1 else 0).
Proof.
  intros Hj. destruct ((j + 1) `mod` 5 =? 0) eqn:Hmod.
  - apply Z.eqb_eq in Hmod. Z.div_mod_to_equations. lia.
  - apply Z.eqb_neq in Hmod. Z.div_mod_to_equations. lia.
Qed.

Lemma flaky_click_timeout k s :
  (count is_click (history s) < k)%nat →
  click_add_to_cart (PageAgent:=agent (timeout_first_clicks k)) s
  = (Fails TimeoutError, log CClickAddToCart s).
Proof.
  intros Hlt. simpl. unfold serve, timeout_first_clicks. simpl.
  by apply Nat.ltb_lt in Hlt as ->.
Qed.

Lemma flaky_click_ok k s :
  (k ≤ count is_click (history s))%nat →
  click_add_to_cart (PageAgent:=agent (timeout_first_clicks k)) s
  = (Ok tt, log CClickAddToCart s).
Proof.
  intros Hlt. simpl. unfold serve, timeout_first_clicks. simpl.
  by apply Nat.ltb_ge in Hlt as ->.
Qed.

(** With [k] timeouts ahead, the click loop clicks until the click after
    them, reloading at every fifth timeout. *)
Lemma click_loop_flaky (k : nat) : ∀ (n fuel : nat) (s : sim) (c : nat),
  count is_click (history s) = c →
  (c + n = k)%nat →
  (n < fuel)%nat →
  ∃ s',
    click_add_to_cart_until_done (H:=agent (timeout_first_clicks k)) fuel
      (Z.of_nat c) s = (Return tt, s')
    ∧ same_page s s'
    ∧ count is_click (history s') = S k
    ∧ Z.of_nat (count is_reload (history s'))
      = Z.of_nat (count is_reload (history s))
        + (Z.of_nat k `div` 5 - Z.of_nat c `div` 5)
    ∧ count is_fill (history s') = count is_fill (history s).
Proof.
  induction n as [|n IH]; intros fuel s c Hc Hk Hfuel;
    (destruct fuel as [|fuel]; [lia|]).
  - exists (log CClickAddToCart s).
    rewrite (click_loop_clicked (H:=agent (timeout_first_clicks k))
               _ _ _ _ (flaky_click_ok k s ltac:(lia))).
    split_and!; try done; cbn [log history]; rewrite count_cons; cbn [is_click is_reload].
    + lia.
    + replace c with k by lia. lia.
  - rewrite (click_loop_timeout (H:=agent (timeout_first_clicks k))
               _ _ _ _ (flaky_click_timeout k s ltac:(lia))).
    pose proof (div5_succ (Z.of_nat c) ltac:(lia)) as Hdiv.
    replace (Z.of_nat c + 1) with (Z.of_nat (S c)) in * by lia.
    destruct (Z.of_nat (S c) `mod` 5 =? 0) eqn:Hmod.
    + destruct (IH fuel (log CReload (log CClickAddToCart s)) (S c))
        as (s' & Hrun & Hsame & Hc' & Hr & Hf); [|lia|lia|].
      { cbn [log history]. rewrite !count_cons. cbn [is_click]. lia. }
      cbn [log history] in Hr, Hf. rewrite !count_cons in Hr, Hf.
      cbn [is_click is_reload is_fill] in Hr, Hf.
      exists s'. split; [by erewrite bind_return; [exact Hrun|]|].
      split; [exact Hsame|]. split; [done|]. split; [lia|done].
    + destruct (IH fuel (log CClickAddToCart s) (S c))
        as (s' & Hrun & Hsame & Hc' & Hr & Hf); [|lia|lia|].
      { cbn [log history]. rewrite !count_cons. cbn [is_click]. lia. }
      cbn [log history] in Hr, Hf. rewrite !count_cons in Hr, Hf.
      cbn [is_click is_reload is_fill] in Hr, Hf.
      exists s'. split; [done|].
      split; [exact Hsame|]. split; [done|]. split; [lia|done].
Qed.

Lemma current_page_single url pg q c h :
  current_page (Sim_ [(url, pg)] url q c h) = pg.
Proof.
  unfold current_page, lookup_page. cbn. by rewrite decide_True.
Qed.

Lemma current_page_log c s : current_page (log c s) = current_page s.
Proof. done. Qed.

(** C2, as the code has it.  A click on add-to-cart that times out is
    retried, with a reload of the page at every fifth timeout, until a
    click goes through; there is no retry budget.  On a page whose first
    [k] clicks time out, one call of [try_inventory_quantity] fills the
    quantity once, clicks [k + 1] times, reloads [k / 5] times and then
    answers what the cart says. *)
Theorem try_inventory_quantity_retries_every_timeout
    (k fuel : nat) (stock check_value : Z) :
  (k < fuel)%nat →
  let r := try_inventory_quantity (H:=agent (timeout_first_clicks k))
             fuel check_value (on_product stock false) in
  r.1 = Return (check_value <=? stock)
  ∧ count is_fill (history r.2) = 1%nat
  ∧ count is_click (history r.2) = S k
  ∧ Z.of_nat (count is_reload (history r.2)) = Z.of_nat k `div` 5.
Proof.
  intros Hfuel.
  set (filled := Sim_ (site (on_product stock false))
                      (current (on_product stock false)) check_value 0
                      [CFillQty check_value]).
  destruct (click_loop_flaky k k fuel filled 0%nat)
    as (s' & Hrun & (Hsite & Hcur & Hqty & Hcart) & Hc & Hr & Hf); [done|lia|lia|].
  change (count is_reload (history filled)) with 0%nat in Hr.
  change (count is_fill (history filled)) with 1%nat in Hf.
  change (Z.of_nat 0 `div` 5) with 0 in Hr.
  assert (try_inventory_quantity (H:=agent (timeout_first_clicks k))
            fuel check_value (on_product stock false)
          = (Return (check_value <=? stock),
             log (if check_value <=? stock then CClickModalClose else CClickConfirm)
                 (log CCartAddResponse s'))) as ->.
  { unfold try_inventory_quantity, cart_interaction.
    unfold try_except at 1.
    erewrite bind_return; [|reflexivity].
    erewrite bind_return; [|exact Hrun].
    destruct s' as [site' cur' qty' cart' hist']. simpl in Hsite, Hcur, Hqty, Hcart.
    subst site' cur' qty' cart'.
    unfold bind, await, try_except. cbn. unfold sim_response. cbn.
    rewrite current_page_log, current_page_single. cbn.
    replace (0 + check_value <=? stock) with (check_value <=? stock) by (f_equal; lia).
    by destruct (check_value <=? stock). }
  cbn [fst snd log history]. rewrite !count_cons.
  destruct (check_value <=? stock); cbn [is_fill is_click is_reload];
    split_and!; try done; lia.
Qed.

(** C2, counterexample.  On a page where every click on add-to-cart
    times out, one call of [try_inventory_quantity] keeps clicking for as
    long as it is let run: it neither gives up after a fixed number of
    retries nor answers. *)
Lemma click_loop_never_done : ∀ fuel count s,
  (click_add_to_cart_until_done (H:=agent timeout_every_click) fuel count s).1
  = OutOfFuel.
Proof.
  induction fuel as [|fuel IH]; intros count s; [done|].
  rewrite (click_loop_timeout (H:=agent timeout_every_click) fuel count s
             (log CClickAddToCart s) eq_refl).
  destruct ((count + 1) `mod` 5 =? 0); [|apply IH].
  erewrite bind_return; [apply IH|reflexivity].
Qed.

Lemma try_inventory_quantity_never_gives_up :
  diverges (λ fuel, try_inventory_quantity (H:=agent timeout_every_click) fuel 100)
           (on_product 5 false).
Proof.
  intros fuel. unfold try_inventory_quantity, cart_interaction.
  unfold try_except at 1.
  erewrite bind_return; [|reflexivity].
  pose proof (click_loop_never_done fuel 0 (log (CFillQty 100)
    (Sim_ (site (on_product 5 false)) (current (on_product 5 false)) 100 0 []))) as Hloop.
  unfold bind at 1.
  destruct (click_add_to_cart_until_done _ _ _) as [[?|?|] ?]; by simplify_eq/=.
Qed.

Lemma try_inventory_quantity_retries_seven_timeouts :
  let r := try_inventory_quantity (H:=agent (timeout_first_clicks 7))
             8 100 (on_product 500 false) in
  r.1 = Return (100 <=? 500)
  ∧ count is_fill (history r.2) = 1%nat
  ∧ count is_click (history r.2) = 8%nat
  ∧ Z.of_nat (count is_reload (history r.2)) = Z.of_nat 7 `div` 5.
Proof.
  apply (try_inventory_quantity_retries_every_timeout 7 8 500 100). lia.
Defined.

(** ** The halving probe against a cart that answers [n <= Q] *)

Section stateless_cart.
Variable pg : page.
Hypothesis pg_stateless : cumulative pg = false.
Hypothesis pg_in_stock : availability pg = None.

Lemma try_inventory_quantity_stateless fuel v s :
  probing pg s →
  ∃ s', try_inventory_quantity (H:=agent no_faults) (S fuel) v s
        = (Return (v <=? stock pg), s')
        ∧ probing pg s'.
Proof.
  intros [Hpage Hcart]. destruct s as [st cur q c h]. simpl in *. subst c.
  unfold try_inventory_quantity, cart_interaction, try_except, bind, await. cbn.
  unfold sim_response, current_page. cbn. unfold lookup_page in Hpage.
  rewrite Hpage. cbn. rewrite pg_stateless.
  replace (0 + v <=? stock pg) with (v <=? stock pg) by (f_equal; lia).
  destruct (v <=? stock pg); cbn; eexists; (split; [done|by split]).
Qed.

Lemma try_inventory_quantity_no_fuel v s :
  (try_inventory_quantity (H:=agent no_faults) 0 v s).1 = OutOfFuel.
Proof. done. Qed.

(** With three or more units in stock no round of the loop can be the
    last: a refusal needs a request above the stock, and half of a request
    of four or more is not 1. *)
Lemma probe_loop_never_breaks : ∀ fuel inventory try_count check_value s,
  3 ≤ stock pg → probing pg s →
  (probe_loop (H:=agent no_faults) fuel inventory try_count check_value s).1
  = OutOfFuel.
Proof.
  induction fuel as [|fuel IH]; intros inventory try_count check_value s HQ Hs;
    [done|].
  assert (∀ v try_count',
    ((availability <- try_inventory_quantity (H:=agent no_faults) fuel v ;;
      let inventory' := if availability : bool then inventory + v else inventory in
      let v' := if availability then v else v `div` 2 in
      if (v' =? 1) && negb availability then ret inventory'
      else probe_loop (H:=agent no_faults) fuel inventory' try_count' v') s).1
    = OutOfFuel) as Hround.
  { intros v try_count'. destruct fuel as [|fuel]; [done|].
    destruct (try_inventory_quantity_stateless fuel v s Hs) as (s' & Htry & Hs').
    erewrite bind_return by exact Htry. cbv zeta.
    destruct (Z.leb_spec v (stock pg)) as [Hle|Hgt]; cbn [negb].
    - rewrite andb_false_r. by apply IH.
    - replace (v `div` 2 =? 1) with false
        by (symmetry; apply Z.eqb_neq; Z.div_mod_to_equations; lia).
      cbn [andb]. by apply IH. }
  simpl. destruct (10 <? try_count + 1); apply Hround.
Qed.

Lemma get_inventory_value_never_returns s :
  3 ≤ stock pg → probing pg s →
  diverges (λ fuel, get_inventory_value (H:=agent no_faults) fuel 100) s.
Proof.
  intros HQ [Hpage Hcart] fuel. unfold get_inventory_value, check_out_of_stock.
  unfold bind at 1 2, await. cbn. unfold read, current_page. cbn.
  unfold lookup_page in Hpage. rewrite Hpage. cbn. rewrite pg_in_stock. cbn.
  apply probe_loop_never_breaks; [done|]. by split.
Qed.

End stateless_cart.

(** Stocks of three units and more make the halving probe run for ever
    against a cart that only compares the request with the stock. *)
Lemma get_inventory_value_diverges (Q : Z) :
  3 ≤ Q →
  diverges (λ fuel, get_inventory_value (H:=agent no_faults) fuel 100)
           (on_product Q false).
Proof.
  intros HQ. apply (get_inventory_value_never_returns (sized_product "Rampage" Q false));
    [done|done|done|].
  split; [|done]. unfold lookup_page. cbn. by rewrite decide_True.
Qed.

(** ** The binary search of [scraper.py] against the same cart *)

Lemma scraper_try_inventory_quantity v s :
  Scraper.try_inventory_quantity (H:=form_agent) v s
  = (Return (v <=? form_stock s),
     Form (form_stock s) v (negb (v <=? form_stock s)) (S (form_clicks s))).
Proof.
  unfold Scraper.try_inventory_quantity, try_except, bind, await. cbn.
  by destruct (v <=? form_stock s).
Qed.

Lemma scraper_binary_search : ∀ fuel left right s,
  1 ≤ left → left ≤ right + 1 → left - 1 ≤ form_stock s ≤ right →
  (Z.to_nat (right - left + 1) ≤ fuel)%nat →
  ∃ s', Scraper.binary_search (H:=form_agent) fuel left right s
        = (Return (form_stock s), s')
        ∧ form_stock s' = form_stock s.
Proof.
  induction fuel as [|fuel IH]; intros left right s Hl Hlr HQ Hfuel.
  - assert (left = right + 1) as -> by lia. simpl.
    replace (right + 1 <=? right) with false by (symmetry; apply Z.leb_gt; lia).
    exists s. split; [|done]. unfold ret. f_equal. f_equal. lia.
  - simpl. destruct (Z.leb_spec left right) as [Hle|Hgt].
    + erewrite bind_return by apply scraper_try_inventory_quantity.
      set (mid := (left + right) `div` 2).
      assert (left ≤ mid ≤ right) by (subst mid; Z.div_mod_to_equations; lia).
      set (s1 := Form (form_stock s) mid (negb (mid <=? form_stock s))
                      (S (form_clicks s))).
      destruct (Z.leb_spec mid (form_stock s)) as [Hmid|Hmid].
      * destruct (IH (mid + 1) right s1) as (s' & Hrun & Hs');
          [simpl; lia..|]. by exists s'.
      * destruct (IH left (mid - 1) s1) as (s' & Hrun & Hs');
          [simpl; lia..|]. by exists s'.
    + exists s. split; [|done]. unfold ret. f_equal. f_equal. lia.
Qed.

(** The binary search finds every stock below the first guess and never
    looks above it. *)
Lemma scraper_get_inventory_value (check_value : Z) s :
  1 ≤ check_value → 0 ≤ form_stock s →
  (Scraper.get_inventory_value (H:=form_agent) check_value s).1
  = Return (form_stock s `min` check_value).
Proof.
  intros Hg HQ. unfold Scraper.get_inventory_value.
  erewrite bind_return by apply scraper_try_inventory_quantity.
  destruct (Z.leb_spec check_value (form_stock s)) as [Hle|Hgt].
  - simpl. f_equal. lia.
  - edestruct (scraper_binary_search (Z.to_nat (check_value - 1)) 1 (check_value - 1))
      as (s' & -> & _); [..|simpl; f_equal; lia]; simpl; lia.
Qed.

(** C1, at the failing inputs.  With one unit in stock the halving probe
    of [playwright_utils.py] asks for 100, 50, 25, 12, 6 and 3 units, is
    refused each time, and returns 0 without ever asking for 1.  With a
    million units in stock the probe of [scraper.py] is granted its first
    guess and returns it. *)
Theorem get_inventory_value_misses_the_stock :
  (let r := get_inventory_value (H:=agent no_faults) 7 100 (on_product 1 false) in
   r.1 = Return 0 ∧ filled_quantities (history r.2) = [100; 50; 25; 12; 6; 3])
  ∧ (let r := Scraper.get_inventory_value (H:=form_agent) 100 (Form 1000000 0 false 0) in
     r.1 = Return 100 ∧ form_clicks r.2 = 1%nat).
Proof. by vm_compute. Qed.

(** The same answer with any larger allowance of rounds. *)
Lemma get_inventory_value_single_unit (fuel : nat) :
  (7 ≤ fuel)%nat →
  (get_inventory_value (H:=agent no_faults) fuel 100 (on_product 1 false)).1
  = Return 0.
Proof.
  intros Hfuel.
  by rewrite (get_inventory_value_more_fuel (H:=agent no_faults) 7 fuel).
Qed.

Example get_inventory_value_cumulative_cart :
  (get_inventory_value (H:=agent no_faults) 8 100 (on_product 7 true)).1 = Return 6.
Proof. by vm_compute. Qed.


(** A product with two variants whose second cart answer cannot be read:
    the first variant is abandoned after asking for 100 and 50 units, the
    second is never selected, nothing is recorded in [data], and the URL
    ends in [failed_urls]. *)
Example handle_url_gives_up_the_product :
  let url := "https://blackeaglearrows.com/rampage/" in
  let w := world_of (start [(url, sized_product "Rampage" 5 false)]) in
  let r := handle_url (H:=agent (fail_at is_response 1 PlaywrightError)) 20 url w in
  r.1 = Return tt
  ∧ elements (failed_urls r.2) = [url]
  ∧ failed_urls_pkl r.2 = Some (failed_urls r.2)
  ∧ data r.2 = []
  ∧ filled_quantities (history (browser r.2)) = [100; 50]
  ∧ selected_options (history (browser r.2)) = ["S"].
Proof. by vm_compute. Qed.

(** C4, counterexample.  A product page without selects is not probed:
    [inventory_identifier] raises [NotImplementedError], [handle_url]
    records the URL as failed, no quantity is ever typed and [data] stays
    empty. *)
Lemma handle_url_rejects_page_without_selects :
  let w := world_of (start [(rampage_url, plain_product "Rampage" 5)]) in
  let r := handle_url (H:=agent no_faults) 20 rampage_url w in
  r.1 = Return tt
  ∧ elements (failed_urls r.2) = [rampage_url]
  ∧ data r.2 = []
  ∧ filled_quantities (history (browser r.2)) = []
  ∧ (inventory_identifier (H:=agent no_faults) 20 blank_item 100
       (world_of (Sim_ [(rampage_url, plain_product "Rampage" 5)] rampage_url 0 0 []))).1
    = Raise NotImplementedError.
Proof. by vm_compute. Qed.

Lemma inventory_identifier_without_combinations_example :
  let w := world_of (Sim_ [(rampage_url, optionless_product "Rampage" 5)]
                          rampage_url 0 0 []) in
  let p' := (get_options_dict (H:=agent no_faults) (browser w)).2 in
  inventory_identifier (H:=agent no_faults) 20 blank_item 100 w
  = (Return 0, set_browser p' w).
Proof.
  intros w p'.
  apply (proj2 (proj2 (proj2 (proj2
           (inventory_identifier_without_combinations (H:=agent no_faults) 20))))
         blank_item 100 w [(0%nat, [])] p'); [reflexivity|done|].
  by left.
Defined.


Lemma no_faults_reliable : reliable_lifecycle (H:=agent no_faults).
Proof. by split_and!. Qed.



(** C8, at the failing schedule.  Two listing tasks are active and the
    file is empty: both load it (line 248) before either has the links of
    its page, the first task finds the Rampage URL and dumps, the second
    finds the Spartan URL and dumps what it had loaded with it.  The
    Rampage URL, which the first merge had persisted, is no longer in the
    file after the second merge. *)
Theorem interleaved_merge_removes_a_persisted_url :
  let w := world_of (start small_shop) in
  let r := interleaved_merges [rampage_url] [spartan_url] w in
  known_products_urls w = ∅
  ∧ r.1 = Return {[rampage_url]}
  ∧ known_products_urls r.2 = {[spartan_url]}
  ∧ rampage_url ∉ known_products_urls r.2.
Proof.
  intros w r.
  destruct (interleaved_merges_file [rampage_url] [spartan_url] w) as (H1 & H2).
  fold r in H1, H2. rewrite H1, H2.
  assert (known_products_urls w = ∅) as -> by done.
  split_and!; [done|f_equal; set_solver|set_solver|].
  assert (rampage_url ≠ spartan_url) by done. set_solver.
Qed.

(** ** The further properties on the simulated site *)

Import ContainerFacts ProbeFacts ScraperFacts.

Lemma handle_listing_always_returns_small_shop :
  let w := world_of (start small_shop) in
  let r := handle_listing (H:=agent no_faults) "https://blackeaglearrows.com/arrows/" w in
  r.1 = Return tt
  ∧ data r.2 = data w
  ∧ failed_urls r.2 = failed_urls w.
Proof.
  intros w.
  apply (proj1 (handle_listing_always_returns (H:=agent no_faults) no_faults_reliable)).
Defined.

Lemma handle_url_saves_data_rampage :
  let w := world_of (start [(rampage_url, sized_product "Rampage" 2 false)]) in
  let r := handle_url (H:=agent no_faults) 20 rampage_url w in
  data_pkl r.2 = Some (data r.2) ∧ output_csv r.2 = Some (data r.2).
Proof.
  intros w.
  apply (proj1 (handle_url_saves_data (H:=agent no_faults) 20) rampage_url w).
  reflexivity.
Defined.


Example inventory_identifier_two_selects :
  let w := world_of (on_two_selects_product 2 false) in
  let r := inventory_identifier (H:=agent no_faults) 20 blank_item 100 w in
  r.1 = Return 6
  ∧ (λ x, take 2 (droplist x)) <$> data r.2
    = [ [("Colour", "Red"); ("Size", "S")]; [("Colour", "Red"); ("Size", "M")];
        [("Colour", "Red"); ("Size", "L")]; [("Colour", "Blue"); ("Size", "S")];
        [("Colour", "Blue"); ("Size", "M")]; [("Colour", "Blue"); ("Size", "L")] ].
Proof. by vm_compute. Qed.

Lemma sim_accumulating_cart pg :
  cumulative pg = true →
  accumulating_cart (H:=agent no_faults) (stock pg) cart (showing pg).
Proof.
  intros Hcum fuel v s Hpage. destruct s as [st cur q c h].
  unfold showing in *. simpl in *.
  unfold try_inventory_quantity, cart_interaction, try_except, bind, await. cbn.
  unfold sim_response, current_page. cbn. unfold lookup_page in Hpage.
  rewrite Hpage. cbn. rewrite Hcum.
  destruct (c + v <=? stock pg); cbn; eexists; (split; [done|by split]).
Qed.

Lemma sim_comparing_cart pg :
  cumulative pg = false →
  comparing_cart (H:=agent no_faults) (stock pg) (probing pg).
Proof.
  intros Hcum fuel v s Hs.
  destruct (try_inventory_quantity_stateless pg Hcum fuel v s Hs) as (s' & Hs' & ?).
  by exists s'.
Qed.

Lemma get_inventory_value_accumulating_cart_seven :
  ∃ n s', get_inventory_value (H:=agent no_faults) (Z.to_nat 100209) 100
            (on_product 7 true) = (Return n, s')
          ∧ 7 - 2 ≤ n ≤ 7 ∧ cart s' = n.
Proof.
  apply (get_inventory_value_accumulating_cart (H:=agent no_faults)
           7 cart (showing (sized_product "Rampage" 7 true))
           (Z.to_nat 100209) 100 (on_product 7 true)
           (check_out_of_stock (H:=agent no_faults) (on_product 7 true)).2).
  - by apply (sim_accumulating_cart (sized_product "Rampage" 7 true)).
  - reflexivity.
  - reflexivity.
  - reflexivity.
  - lia.
  - lia.
  - lia.
Defined.

Lemma get_inventory_value_comparing_cart_two_and_five :
  (get_inventory_value (H:=agent no_faults) 7 100 (on_product 2 false)).1 = Return 0
  ∧ diverges (λ fuel, get_inventory_value (H:=agent no_faults) fuel 100)
             (on_product 5 false).
Proof.
  split.
  - apply (proj2 (get_inventory_value_comparing_cart (H:=agent no_faults)
                    2 (probing (sized_product "Rampage" 2 false))
                    (on_product 2 false)
                    (check_out_of_stock (H:=agent no_faults) (on_product 2 false)).2
                    (sim_comparing_cart (sized_product "Rampage" 2 false) eq_refl)
                    eq_refl ltac:(by split))); lia.
  - apply (proj1 (get_inventory_value_comparing_cart (H:=agent no_faults)
                    5 (probing (sized_product "Rampage" 5 false))
                    (on_product 5 false)
                    (check_out_of_stock (H:=agent no_faults) (on_product 5 false)).2
                    (sim_comparing_cart (sized_product "Rampage" 5 false) eq_refl)
                    eq_refl ltac:(by split))); lia.
Defined.

Lemma get_inventory_value_out_of_stock_sold_out :
  get_inventory_value (H:=agent no_faults) 0 100 on_sold_out_product
  = (Return 0, (availability_text (PageAgent:=agent no_faults) on_sold_out_product).2).
Proof.
  apply (proj1 (get_inventory_value_out_of_stock (H:=agent no_faults) 0 100
                  on_sold_out_product
                  (availability_text (PageAgent:=agent no_faults) on_sold_out_product).2)
           "Currently out of Stock"); reflexivity.
Defined.

Lemma get_options_dict_usable_options_two_selects :
  let d := [(0%nat, ["Red"; "Blue"]); (1%nat, ["S"; "M"; "L"])] in
  let p := on_two_selects_product 5 false in
  NoDup d.*1
  ∧ (∀ attrs p1, attribute_selects (PageAgent:=agent no_faults) p = (Ok attrs, p1) →
       ∀ k, k ∈ d.*1 ↔ k ∈ attrs)
  ∧ (∀ k values v, (k, values) ∈ d → v ∈ values → v ≠ EmptyString)
  ∧ (∀ c, c ∈ get_all_combinations d.*2 →
       length c = length d ∧ Forall (λ v, v ≠ EmptyString) c).
Proof.
  intros d p.
  apply (get_options_dict_usable_options (H:=agent no_faults) p
           (get_options_dict (H:=agent no_faults) p).2 d).
  reflexivity.
Defined.


Lemma scraper_get_inventory_value_answers_million :
  (∃ n p', Scraper.get_inventory_value (H:=form_agent) 100 (Form 1000000 0 false 0)
           = (Return n, p')
           ∧ 0 ≤ n ≤ 100)
  ∧ ∀ fuel (p1 : form),
      (Z.to_nat (Z.log2 (100 - 1) + 1) ≤ fuel)%nat →
      ∃ n p', Scraper.binary_search (H:=form_agent) fuel 1 (100 - 1) p1 = (Return n, p')
              ∧ 0 ≤ n ≤ 100 - 1.
Proof.
  apply (scraper_get_inventory_value_answers (H:=form_agent) 100
           (Form 1000000 0 false 0)). lia.
Defined.

Lemma form_agent_honest Q :
  Scraper.honest_form (H:=form_agent) Q (λ s, form_stock s = Q).
Proof.
  intros v s <-. eexists. split; [apply scraper_try_inventory_quantity|done].
Qed.

Lemma scraper_get_inventory_value_honest_form_thirty_seven :
  (Scraper.get_inventory_value (H:=form_agent) 100 (Form 37 0 false 0)).1
  = Return (37 `min` 100).
Proof.
  apply (scraper_get_inventory_value_honest_form (H:=form_agent)
           37 (λ s, form_stock s = 37) 100 (Form 37 0 false 0));
    [apply form_agent_honest|reflexivity|lia|lia].
Defined.


Lemma cart_answer_without_data_counts_as_available_silent_cart :
  let p := on_product 5 false in
  let p1 := (fill_qty (PageAgent:=answering NoDataKey) 100 p).2 in
  let p2 := (click_add_to_cart_until_done (H:=answering NoDataKey) 1 0 p1).2 in
  let p3 := (cart_add_response (PageAgent:=answering NoDataKey) p2).2 in
  try_inventory_quantity (H:=answering NoDataKey) 1 100 p = (Return true, p3).
Proof.
  intros p p1 p2 p3.
  apply (cart_answer_without_data_counts_as_available (H:=answering NoDataKey)
           1 100 p p1 p2 p3 NoDataKey); reflexivity.
Defined.

Example cart_answer_without_get :
  (try_inventory_quantity (H:=answering DataNotDict) 1 100 (on_product 5 false)).1
  = Raise TimeoutError.
Proof. reflexivity. Qed.

End SimFacts.
